(** * RAG_info: chunking, index construction and retrieval

  A shallow embedding of [vectorstore/build_rag_clean.py] (ingestion) and
  [chat.py] (query), with the properties of the chunker, of the persisted
  index/metadata pair and of the context assembler.

  Conventions.
  - A Python [str] is a sequence of Unicode code points: [list N].
  - Python integers are [Z]; list positions coming from [enumerate] are [nat].
  - An uncaught exception, or [exit()], is the [None] of an [option]. *)

From Stdlib Require Import ZArith NArith QArith Lia Ascii String.
From stdpp Require Import base tactics option list numbers strings gmap.

#[local] Open Scope Z_scope.

(** ** Python strings and slices *)

Module Py.

Abbreviation char := N (only parsing).
Abbreviation str := (list N) (only parsing).

(** Code points of a UTF-8 byte sequence (well-formed input only). *)
Fixpoint utf8_decode (bs : list N) : str :=
  match bs with
  | [] => []
  | b :: bs1 =>
    if (b <? 128)%N then b :: utf8_decode bs1
    else match bs1 with
    | [] => []
    | c1 :: bs2 =>
      if (b <? 224)%N then
        ((b - 192) * 64 + (c1 - 128))%N :: utf8_decode bs2
      else match bs2 with
      | [] => []
      | c2 :: bs3 =>
        if (b <? 240)%N then
          ((b - 224) * 4096 + (c1 - 128) * 64 + (c2 - 128))%N
            :: utf8_decode bs3
        else match bs3 with
        | [] => []
        | c3 :: bs4 =>
          ((b - 240) * 262144 + (c1 - 128) * 4096 + (c2 - 128) * 64
           + (c3 - 128))%N :: utf8_decode bs4
        end
      end
    end
  end.

(** A string literal of the source (the files are UTF-8) as a [str]. *)
Definition lit (s : string) : str :=
  utf8_decode ((λ a, N_of_ascii a) <$> list_ascii_of_string s).

(** The escape [\n]. *)
Definition nl : str := [10%N].

(** [len(s)] *)
Definition len {A} (s : list A) : Z := Z.of_nat (length s).

(** How a slice bound is adjusted against a length [n]: a negative bound
    counts from the end, and the result is clipped to [0..n]. *)
Definition clip (n i : Z) : Z :=
  if i <? 0 then Z.max (i + n) 0 else Z.min i n.

(** [s[a:b]] *)
Definition slice {A} (s : list A) (a b : Z) : list A :=
  let lo := clip (len s) a in
  let hi := clip (len s) b in
  take (Z.to_nat (hi - lo)) (drop (Z.to_nat lo) s).

(** [l[i]] for a non-negative or negative [i]; [None] is [IndexError]. *)
Definition getitem {A} (l : list A) (i : Z) : option A :=
  if i <? 0 then
    if 0 <=? i + len l then l !! Z.to_nat (i + len l) else None
  else l !! Z.to_nat i.

(** [c.isspace()] for one code point. *)
Definition isspace (c : char) : bool :=
  ((9 <=? c) && (c <=? 13) || (28 <=? c) && (c <=? 32)
   || (c =? 133) || (c =? 160) || (c =? 5760)
   || (8192 <=? c) && (c <=? 8202)
   || (c =? 8232) || (c =? 8233) || (c =? 8239) || (c =? 8287)
   || (c =? 12288))%N.

Fixpoint lstrip (s : str) : str :=
  match s with
  | c :: s' => if isspace c then lstrip s' else s
  | [] => []
  end.

Definition rstrip (s : str) : str := reverse (lstrip (reverse s)).

(** [s.strip()] *)
Definition strip (s : str) : str := rstrip (lstrip s).

(** [sep.join(parts)] *)
Fixpoint join (sep : str) (parts : list str) : str :=
  match parts with
  | [] => []
  | [p] => p
  | p :: ps => p ++ sep ++ join sep ps
  end.

(** [range(0, n, step)] for a positive [step], as the list of its values. *)
Definition range0 (n step : nat) : list Z :=
  (λ j : nat, Z.of_nat (j * step)) <$> seq 0 (Nat.div (n + step - 1) step).

(** [enumerate(l)] *)
Definition enumerate {A} (l : list A) : list (nat * A) :=
  zip (seq 0 (length l)) l.

(** A [for] loop whose body may raise: the state is threaded through and
    the first exception ends the loop. *)
Fixpoint for_ {A S} (body : S → A → option S) (xs : list A) (s : S)
  : option S :=
  match xs with
  | [] => Some s
  | x :: xs' => s' ← body s x; for_ body xs' s'
  end.

End Py.

(** ** vectorstore/build_rag_clean.py *)

Module Build.
Import Py.

(** *** Section 2: the chunker *)

(** The [while] loop of [dividir_texto], with a bound on the number of
    iterations; [None] means the bound was reached. *)
Fixpoint dividir_bucle (fuel : nat) (texto : str) (tamano overlap : Z)
    (inicio : Z) (chunks : list str) : option (list str) :=
  match fuel with
  | O => None
  | S fuel' =>
    if inicio <? len texto then
      let fin := inicio + tamano in
      let chunk := slice texto inicio fin in
      let chunks := chunks ++ [chunk] in
      let inicio' := Z.max (fin - overlap) (inicio + 1) in
      if fin >=? len texto then Some chunks
      else dividir_bucle fuel' texto tamano overlap inicio' chunks
    else Some chunks
  end.

(** [inicio] grows by at least one in every iteration, so [len(texto) + 1]
    iterations are always enough (module [Chunker] proves it). *)
Definition dividir_texto (texto : str) (tamano overlap : Z) : list str :=
  default [] (dividir_bucle (S (length texto)) texto tamano overlap 0 []).

(** The same loop, recording for every iteration the pair [(inicio, fin)]
    it slices with instead of the slice. *)
Fixpoint cortes_bucle (fuel : nat) (n : Z) (tamano overlap : Z)
    (inicio : Z) : list (Z * Z) :=
  match fuel with
  | O => []
  | S fuel' =>
    if inicio <? n then
      let fin := inicio + tamano in
      let inicio' := Z.max (fin - overlap) (inicio + 1) in
      (inicio, fin) ::
        (if fin >=? n then []
         else cortes_bucle fuel' n tamano overlap inicio')
    else []
  end.

Definition cortes (texto : str) (tamano overlap : Z) : list (Z * Z) :=
  cortes_bucle (S (length texto)) (len texto) tamano overlap 0.

(** *** Section 2: the loop over the documents (lines 92 to 104) *)

(** One object of [chunks.json]. *)
Record registro := Registro { chunk_id : Z; fuente : str; texto : str }.

(** Body of [for j, chunk in enumerate(chunks)]; the state is the pair
    [(todos_los_chunks, metadatos)], [i] is the position of the document. *)
Definition agregar_chunk (fuentes : list str) (i : nat)
    (st : list str * list registro) (chunk : str)
  : option (list str * list registro) :=
  let '(todos_los_chunks, metadatos) := st in
  let todos_los_chunks := todos_los_chunks ++ [chunk] in
  fuente_i ← fuentes !! i;
  Some (todos_los_chunks,
        metadatos ++ [Registro (len todos_los_chunks - 1) fuente_i
                               (strip chunk)]).

(** Body of [for i, texto in enumerate(textos)]. *)
Definition procesar_documento (fuentes : list str)
    (st : list str * list registro) (it : nat * str)
  : option (list str * list registro) :=
  let '(i, texto) := it in
  if bool_decide (strip texto = []) then Some st
  else for_ (agregar_chunk fuentes i) (dividir_texto texto 1000 200) st.

(** The values of [todos_los_chunks] and [metadatos] after the loop. *)
Definition chunks_y_metadatos (textos fuentes : list str)
  : option (list str * list registro) :=
  for_ (procesar_documento fuentes) (enumerate textos) ([], []).

(** What the two lists have in common after any number of iterations: record
    [i] holds the trimmed text of chunk [i] and the number [i]. *)
Definition alineados (st : list str * list registro) : Prop :=
  texto <$> st.2 = strip <$> st.1
  ∧ chunk_id <$> st.2 = Z.of_nat <$> seq 0 (length st.1).

(** *** Section 3: embeddings *)

Definition NOMBRE_MODELO_NOMIC : str :=
  lit "text-embedding-nomic-embed-text-v2-moe".

Definition BATCH_SIZE : Z := 32.

(** An exception, with the text [str(e)] gives for it. *)
Inductive excepcion := Excepcion (mensaje : str).

Definition str_e (e : excepcion) : str := let 'Excepcion m := e in m.

(** The slices [todos_los_chunks[i:i + BATCH_SIZE]] the loop goes through. *)
Definition lotes (todos_los_chunks : list str) : list (list str) :=
  (λ i, slice todos_los_chunks i (i + BATCH_SIZE))
    <$> range0 (length todos_los_chunks) (Z.to_nat BATCH_SIZE).

Section Embeddings.

(** The numbers of an embedding as the service gives them ([coord]) and as
    an array of single precision holds them ([coord32]), with the rounding
    from the first to the second; and the embedding service: a state that a
    call may change, and for each call (model, input) either an exception or
    the list of the [embedding] fields of [respuesta.data]. *)
Context {coord coord32 api : Type}.
Variable float32 : coord → coord32.
Variable embeddings_create :
  api → str → list str → api * (excepcion + list (list coord)).

(** The loop over the batches (lines 126 to 143); an exception ends it and
    keeps what [embeddings_list] holds. *)
Fixpoint vectorizar_bucle (batches : list (list str)) (cliente : api)
    (embeddings_list : list (list coord)) : api * list (list coord) :=
  match batches with
  | [] => (cliente, embeddings_list)
  | batch_chunks :: rest =>
    match embeddings_create cliente NOMBRE_MODELO_NOMIC batch_chunks with
    | (cliente', inr batch_embeddings) =>
        vectorizar_bucle rest cliente' (embeddings_list ++ batch_embeddings)
    | (cliente', inl e) => (cliente', embeddings_list)
    end
  end.

Definition vectorizar (cliente : api) (todos_los_chunks : list str)
  : api * list (list coord) :=
  vectorizar_bucle (lotes todos_los_chunks) cliente [].

(** [np.array(rows, dtype='float32')] for a list of lists of numbers: the
    rows, each number rounded to single precision, when they have one length,
    [ValueError] otherwise. *)
Definition np_array (rows : list (list coord))
  : option (list (list coord32)) :=
  match rows with
  | [] => Some []
  | r :: _ =>
    if forallb (λ r', bool_decide (length r' = length r)) rows
    then Some ((λ r : list coord, float32 <$> r) <$> rows) else None
  end.

(** [a.shape[1]] of a matrix with at least one row. *)
Definition shape1 (a : list (list coord32)) : Z :=
  match a with r :: _ => len r | [] => 0 end.

(** *** Section 4: the index and the two files *)

(** A flat index: its dimension and the stored rows, in insertion order. *)
Record IndexFlatL2 := { d : Z; xb : list (list coord32) }.

Definition ntotal (index : IndexFlatL2) : Z := len (xb index).

(** [index.add(embeddings)] *)
Definition add (index : IndexFlatL2) (embeddings : list (list coord32))
  : IndexFlatL2 :=
  {| d := d index; xb := xb index ++ embeddings |}.

(** The script from the check on [textos] to the end: [Some] of what
    [faiss.index] and [chunks.json] hold when both are written, [None] when
    the script stops before ([exit()] or an exception). *)
Definition build (cliente : api) (textos fuentes : list str)
  : option (IndexFlatL2 * list registro) :=
  if bool_decide (textos = []) then None else
  '(todos_los_chunks, metadatos) ← chunks_y_metadatos textos fuentes;
  let '(_, embeddings_list) := vectorizar cliente todos_los_chunks in
  embeddings ← np_array embeddings_list;
  if len embeddings =? 0 then None else
  let dimension := shape1 embeddings in
  let index := add {| d := dimension; xb := [] |} embeddings in
  Some (index, metadatos).

(** A service that also keeps the inputs it was called with. *)
Definition registrar
    (st : api * list (list str)) (model : str) (input : list str)
  : (api * list (list str)) * (excepcion + list (list coord)) :=
  let '(cliente', r) := embeddings_create st.1 model input in
  ((cliente', st.2 ++ [input]), r).

End Embeddings.

End Build.

(** ** chat.py *)

Module Chat.
Import Py.
Export Build (registro, Registro, chunk_id, fuente, texto,
              excepcion, Excepcion, str_e).

Definition NOMBRE_CHAT_MODELO : str := lit "openai/gpt-oss-20b".

(** The f-string of line 76. *)
Definition bloque (chunk : registro) : str :=
  lit "--- Fuente: " ++ fuente chunk ++ lit " ---" ++ nl ++ texto chunk.

(** Body of [for idx in I[0]]; the state is the pair
    [(contextos_recuperados, fuentes_usadas)]. *)
Definition recuperar (metadatos : list registro)
    (st : list str * gset str) (idx : Z) : option (list str * gset str) :=
  let '(contextos_recuperados, fuentes_usadas) := st in
  if (idx >=? 0) && (idx <? len metadatos) then
    chunk ← getitem metadatos idx;
    Some (contextos_recuperados ++ [bloque chunk],
          fuentes_usadas ∪ {[ fuente chunk ]})
  else Some st.

Section Retriever.

(** The query vector, the index object and its [search], which for one query
    row gives the row [I[0]] of [k] labels. *)
Context {vector Index : Type}.
Variable search : Index → vector → Z → list Z.

Definition contextos_recuperados (vector_pregunta : vector) (index : Index)
    (metadatos : list registro) (k : Z) : option (list str * gset str) :=
  for_ (recuperar metadatos) (search index vector_pregunta k) ([], ∅).

Definition buscar_contexto (vector_pregunta : vector) (index : Index)
    (metadatos : list registro) (k : Z) : option str :=
  '(contextos, _) ← contextos_recuperados vector_pregunta index metadatos k;
  Some (join (nl ++ nl) contextos).

End Retriever.

(** One message and one request of the chat endpoint. *)
Record mensaje := Mensaje { role : str; content : str }.
Record peticion :=
  Peticion { model : str; messages : list mensaje; temperature : Q }.

Definition prompt_sistema : str :=
  lit "Eres un asistente de respuesta de preguntas que utiliza la información proporcionada en el Contexto para responder "
  ++ lit "concisa y con precisión. Si la respuesta no está en el Contexto, indica claramente que no tienes suficiente información. "
  ++ lit "NO inventes información.".

Definition prompt_usuario (pregunta contexto : str) : str :=
  (lit "Contexto:" ++ nl ++ lit "---" ++ nl ++ contexto ++ nl ++ lit "---"
   ++ nl ++ nl)
  ++ (lit "Pregunta: " ++ pregunta).

(** What the string returned by the [except] branch starts with. *)
Definition MARCA_ERROR : str :=
  lit "❌ ERROR al comunicarse con el LLM '" ++ NOMBRE_CHAT_MODELO
  ++ lit "'. Asegúrate que esté corriendo en LM Studio: ".

(** The request of lines 103 to 110. *)
Definition peticion_chat (pregunta contexto : str) : peticion :=
  Peticion NOMBRE_CHAT_MODELO
    [Mensaje (lit "system") prompt_sistema;
     Mensaje (lit "user") (prompt_usuario pregunta contexto)]
    (1 # 10)%Q.

Section Generator.

(** The completion service: an exception, or the [message.content] of the
    choices of the response. *)
Variable chat_completions_create : peticion → excepcion + list str.

(** The [try] block: the call, then [response.choices[0].message.content],
    which raises [IndexError] on an empty list of choices. *)
Definition intento (pregunta contexto : str) : excepcion + str :=
  match chat_completions_create (peticion_chat pregunta contexto) with
  | inl e => inl e
  | inr choices =>
    match choices with
    | c :: _ => inr c
    | [] => inl (Excepcion (lit "list index out of range"))
    end
  end.

Definition generar_respuesta (pregunta contexto : str) : str :=
  match intento pregunta contexto with
  | inr respuesta => respuesta
  | inl e => MARCA_ERROR ++ str_e e
  end.

End Generator.

End Chat.

(** ** Stand-ins for the two external services, with integer coordinates *)

Module Dobles.
Import Py Build.

(** An embedding service that answers its first [limite] calls, with one
    vector per input, and raises from then on; the state counts the calls. *)
Definition servicio (limite : nat) (llamadas : nat) (model : str)
    (input : list str) : nat * (excepcion + list (list Z)) :=
  (S llamadas,
   if bool_decide (llamadas < limite)%nat
   then inr ((λ t, [len t; len (strip t)]) <$> input)
   else inl (Excepcion (lit "Connection error."))).

(** Rounding of an integer to the nearest number with 24 significant bits,
    ties to even: what single precision keeps of it (below its largest
    finite number). *)
Definition float32 (z : Z) : Z :=
  let a := Z.abs z in
  if a <? 2 ^ 24 then z
  else
    let e := Z.log2 a - 23 in
    let q := a / 2 ^ e in
    let r := a mod 2 ^ e in
    let q' :=
      if (2 ^ (e - 1) <? r) || ((r =? 2 ^ (e - 1)) && Z.odd q)
      then q + 1 else q in
    Z.sgn z * (q' * 2 ^ e).

(** Squared Euclidean distance. *)
Definition distancia2 (q x : list Z) : Z :=
  foldr Z.add 0 (zip_with (λ a b, (a - b) * (a - b)) q x).

Fixpoint insertar (p : Z * Z) (l : list (Z * Z)) : list (Z * Z) :=
  match l with
  | [] => [p]
  | h :: t => if p.1 <=? h.1 then p :: l else h :: insertar p t
  end.

(** Exhaustive search: the labels of the [k] nearest rows, nearest first,
    filled up with [-1] when the index holds fewer than [k] rows. *)
Definition search (index : @IndexFlatL2 Z) (q : list Z) (k : Z) : list Z :=
  let ordenados :=
    foldr insertar [] (imap (λ i x, (distancia2 q x, Z.of_nat i)) (xb index)) in
  let etiquetas := take (Z.to_nat k) (snd <$> ordenados) in
  etiquetas ++ replicate (Z.to_nat k - length etiquetas) (-1).

End Dobles.

(** ** vectorstore/build_rag_clean.py, section 1: the document loader *)

Module Loader.
Import Py Build.

Section Carga.

(** [os.path.relpath(archivo, CARPETA_DOCUMENTOS)] *)
Variable relpath : str → str.

(** Body of the loop of [cargar_txt] for one path given by [glob], with what
    [open] and [f.read()] give for it: the text, or the exception that the
    [except] clause catches before anything is appended. The state is the
    pair [(textos, fuentes)]. *)
Definition cargar_txt_archivo (st : list str * list str)
    (archivo : str * (excepcion + str)) : list str * list str :=
  let '(textos, fuentes) := st in
  match archivo.2 with
  | inr contenido => (textos ++ [contenido], fuentes ++ [relpath archivo.1])
  | inl e => st
  end.

Definition cargar_txt (archivos : list (str * (excepcion + str)))
    (st : list str * list str) : list str * list str :=
  foldl cargar_txt_archivo st archivos.

(** The loop over [reader.pages]: [texto += page.extract_text() + "\n"];
    a page whose extraction raises ends the file. *)
Fixpoint texto_pdf (pages : list (excepcion + str)) (texto : str)
  : excepcion + str :=
  match pages with
  | [] => inr texto
  | inr pagina :: rest => texto_pdf rest (texto ++ (pagina ++ nl))
  | inl e :: _ => inl e
  end.

(** Body of the loop of [cargar_pdf] for one path, with what [PdfReader]
    gives for it: an exception, or the pages. *)
Definition cargar_pdf_archivo (st : list str * list str)
    (archivo : str * (excepcion + list (excepcion + str)))
  : list str * list str :=
  let '(textos, fuentes) := st in
  match archivo.2 with
  | inl e => st
  | inr pages =>
    match texto_pdf pages [] with
    | inr texto => (textos ++ [texto], fuentes ++ [relpath archivo.1])
    | inl e => st
    end
  end.

(** [pypdf2] tells whether the import of [PyPDF2] succeeds; without it no PDF
    is read. *)
Definition cargar_pdf (pypdf2 : bool)
    (archivos : list (str * (excepcion + list (excepcion + str))))
    (st : list str * list str) : list str * list str :=
  if pypdf2 then foldl cargar_pdf_archivo st archivos else st.

(** [textos] and [fuentes] after [cargar_txt()] and [cargar_pdf()]. *)
Definition cargar (txts : list (str * (excepcion + str))) (pypdf2 : bool)
    (pdfs : list (str * (excepcion + list (excepcion + str))))
  : list str * list str :=
  cargar_pdf pypdf2 pdfs (cargar_txt txts ([], [])).

End Carga.

End Loader.

(** ** Where a chunk and its record come from *)

Module Origen.
Import Py Build.

(** The chunk [raw] was cut from some document of [textos], and the record
    [r] carries the source of that document and the trimmed text of the
    chunk. *)
Definition de_un_documento (textos fuentes : list str)
    (raw : str) (r : registro) : Prop :=
  ∃ i t, textos !! i = Some t ∧ fuentes !! i = Some (fuente r)
         ∧ raw ∈ dividir_texto t 1000 200 ∧ texto r = strip raw.

End Origen.

(** ** chat.py: the question vectorizer and the main loop *)

Module Sesion.
Import Py Chat.

Definition NOMBRE_EMBEDDING_MODELO : str :=
  lit "text-embedding-nomic-embed-text-v2-moe".

(** How [bucle_preguntas] ends: the word [salir], the end of the input
    ([input()] raises [EOFError]), or an exception that nothing catches. *)
Inductive final := Adios | EOFError | ExcepcionNoCapturada.

Section Bucle.

Context {coord coord32 Index mundo : Type}.

(** [s.lower()] *)
Variable lower : str → str.

(** The rounding of a number to single precision. *)
Variable float32 : coord → coord32.

(** The two services, each with the state of the outside world it may read
    and change. *)
Variable embeddings_create :
  mundo → str → list str → mundo * (excepcion + list (list coord)).
Variable chat_completions_create :
  mundo → peticion → mundo * (excepcion + list str).

(** [index.search] for one query row: the row [I[0]] of labels, or the
    exception it raises (as it does for a query that has not the dimension
    of the index). *)
Variable search : Index → list coord32 → Z → excepcion + list Z.

(** [vectorizar_pregunta], for what the one call it makes answers: the array
    of [respuesta.data[0].embedding], or [None] after any exception. *)
Definition vectorizar_pregunta
    (crear : str → list str → excepcion + list (list coord))
    (pregunta : str) : option (list coord32) :=
  match crear NOMBRE_EMBEDDING_MODELO [pregunta] with
  | inr (embedding :: _) => Some (float32 <$> embedding)
  | inr [] => None
  | inl e => None
  end.

(** [buscar_contexto] as the loop calls it: an exception of the search, or
    of the lookup in [metadatos], leaves the function. *)
Definition buscar_contexto_exc (vector_pregunta : list coord32)
    (index : Index) (metadatos : list registro) (k : Z)
  : excepcion + str :=
  match search index vector_pregunta k with
  | inl e => inl e
  | inr fila =>
    match buscar_contexto (λ _ _ _, fila) vector_pregunta index metadatos k
    with
    | Some contexto => inr contexto
    | None => inl (Excepcion (lit "list index out of range"))
    end
  end.

(** [bucle_preguntas] over the lines that [input()] gives one by one; the
    result is the list of the answers printed and how the loop ended. *)
Fixpoint bucle_preguntas (index : Index) (metadatos : list registro)
    (entradas : list str) (w : mundo) (respuestas : list str)
  : list str * final :=
  match entradas with
  | [] => (respuestas, EOFError)
  | linea :: resto =>
    let pregunta := strip linea in
    if bool_decide (lower pregunta = lit "salir") then (respuestas, Adios)
    else if bool_decide (pregunta = []) then
      bucle_preguntas index metadatos resto w respuestas
    else
      let w1 := (embeddings_create w NOMBRE_EMBEDDING_MODELO [pregunta]).1 in
      match vectorizar_pregunta (λ m i, (embeddings_create w m i).2)
              pregunta with
      | None => bucle_preguntas index metadatos resto w1 respuestas
      | Some vector_pre =>
        match buscar_contexto_exc vector_pre index metadatos 4 with
        | inl e => (respuestas, ExcepcionNoCapturada)
        | inr contexto =>
          let w2 :=
            (chat_completions_create w1 (peticion_chat pregunta contexto)).1 in
          let respuesta_final :=
            generar_respuesta (λ p, (chat_completions_create w1 p).2)
              pregunta contexto in
          bucle_preguntas index metadatos resto w2
            (respuestas ++ [respuesta_final])
        end
      end
  end.

End Bucle.

End Sesion.

(** ** More stand-ins: a case table for the basic Latin letters and a
    completion service that counts its calls *)

Module Dobles2.
Import Py Chat.

Definition lower_ascii (s : str) : str :=
  (λ c, if ((65 <=? c) && (c <=? 90))%N then (c + 32)%N else c) <$> s.

(** Both services keep in the state the number of calls made to them. The
    embedding service raises on the questions longer than [limite]. *)
Definition embeddings (limite : Z) (w : nat * nat) (model : str)
    (input : list str) : (nat * nat) * (excepcion + list (list Z)) :=
  ((S w.1, w.2),
   if forallb (λ t, len t <=? limite) input
   then inr ((λ t, [len t; 0]) <$> input)
   else inl (Excepcion (lit "Connection error."))).

(** An embedding service without state that always answers. *)
Definition servicio_fiel (w : unit) (model : str) (input : list str)
  : unit * (excepcion + list (list Z)) :=
  (w, inr ((λ t, [len t; len (strip t)]) <$> input)).

(** An embedding service that answers the first [limite] calls and raises
    from then on, with a first coordinate that single precision does not
    hold exactly. *)
Definition servicio_grande (limite : nat) (llamadas : nat) (model : str)
    (input : list str) : nat * (excepcion + list (list Z)) :=
  (S llamadas,
   if bool_decide (llamadas < limite)%nat
   then inr ((λ t, [16777217; len t]) <$> input)
   else inl (Excepcion (lit "Connection error."))).

(** The search of a flat index, which refuses a query of another
    dimension. *)
Definition search (index : @Build.IndexFlatL2 Z) (q : list Z) (k : Z)
  : excepcion + list Z :=
  if len q =? Build.d index then inr (Dobles.search index q k)
  else inl (Excepcion (lit "AssertionError")).

Definition completions (w : nat * nat) (p : peticion)
  : (nat * nat) * (excepcion + list str) :=
  ((w.1, S w.2), inr [lit "respuesta " ++ [N.of_nat (48 + w.2)]]).

End Dobles2.

(** ** Facts about the Python operations *)

Module PyFacts.
Import Py.

Lemma len_nonneg {A} (s : list A) : 0 ≤ len s.
Proof. unfold len. lia. Qed.

Lemma len_app {A} (s t : list A) : len (s ++ t) = len s + len t.
Proof. unfold len. rewrite length_app. lia. Qed.

(** With both bounds non-negative a slice is a [take] of a [drop]. *)
Lemma slice_nonneg {A} (s : list A) (a b : Z) :
  0 ≤ a → 0 ≤ b →
  slice s a b = take (Z.to_nat (b - a)) (drop (Z.to_nat a) s).
Proof.
  intros Ha Hb. unfold slice, clip.
  pose proof (len_nonneg s) as Hn. unfold len in *.
  destruct (Z.ltb_spec a 0), (Z.ltb_spec b 0); try lia.
  destruct (Z.le_gt_cases a (Z.of_nat (length s))) as [Hle|Hgt].
  - rewrite (Z.min_l a) by lia.
    apply list_eq. intros j.
    rewrite !lookup_take, !lookup_drop.
    repeat case_decide; try done; try lia.
    symmetry. apply lookup_ge_None. lia.
  - rewrite (Z.min_r a) by lia.
    rewrite !drop_ge by lia. by rewrite !take_nil.
Qed.

Lemma slice_length {A} (s : list A) (a b : Z) :
  0 ≤ a → a ≤ b → b ≤ len s → len (slice s a b) = b - a.
Proof.
  intros. rewrite slice_nonneg by lia. unfold len in *.
  rewrite length_take, length_drop. lia.
Qed.

(** Inside its bounds a slice reads the sequence it was cut from. *)
Lemma slice_lookup {A} (s : list A) (a b p : Z) :
  0 ≤ a → a ≤ p → p < b →
  slice s a b !! Z.to_nat (p - a) = s !! Z.to_nat p.
Proof.
  intros. rewrite slice_nonneg by lia.
  rewrite lookup_take, lookup_drop. case_decide; [|lia].
  f_equal. lia.
Qed.

Lemma slice_replicate {A} (c : A) (n : nat) (a b : Z) :
  0 ≤ a → a ≤ b →
  slice (replicate n c) a b
  = replicate (Z.to_nat (Z.min b (Z.of_nat n) - Z.min a (Z.of_nat n))) c.
Proof.
  intros. rewrite slice_nonneg by lia.
  rewrite drop_replicate, take_replicate. f_equal. lia.
Qed.

Lemma lstrip_blank (s : str) :
  Forall (λ c, isspace c = true) s → lstrip s = [].
Proof. induction 1 as [|c s Hc _ IH]; simpl; [done|]. by rewrite Hc. Qed.

(** A text made of whitespace only, the empty one included, strips to the
    empty string. *)
Lemma strip_blank (s : str) :
  Forall (λ c, isspace c = true) s → strip s = [].
Proof. intros H. unfold strip, rstrip. by rewrite (lstrip_blank s H). Qed.

Lemma lstrip_head (c : char) (s : str) :
  isspace c = false → lstrip (c :: s) = c :: s.
Proof. intros H. simpl. by rewrite H. Qed.

Lemma strip_replicate (c : char) (n : nat) :
  isspace c = false → strip (replicate n c) = replicate n c.
Proof.
  intros H. unfold strip, rstrip.
  assert (Hl : ∀ m, lstrip (replicate m c) = replicate m c).
  { intros [|m]; [done|]. by apply lstrip_head. }
  rewrite Hl, reverse_replicate, Hl. apply reverse_replicate.
Qed.

Lemma for__app {A S} (body : S → A → option S) (xs ys : list A) (s : S) :
  for_ body (xs ++ ys) s = s' ← for_ body xs s; for_ body ys s'.
Proof.
  revert s. induction xs as [|x xs IH]; intros s; simpl; [done|].
  destruct (body s x) as [s'|]; simpl; [apply IH|done].
Qed.

(** A property of the state kept by the body is kept by the loop. *)
Lemma for__inv {A S} (P : S → Prop) (body : S → A → option S)
    (xs : list A) (s s' : S) :
  (∀ t x t', P t → body t x = Some t' → P t') →
  P s → for_ body xs s = Some s' → P s'.
Proof.
  intros Hb. revert s. induction xs as [|x xs IH]; intros s Hs; simpl.
  - by intros [= <-].
  - destruct (body s x) as [t|] eqn:E; simpl; [|done]. eauto.
Qed.

End PyFacts.

(** ** The chunker *)

Module Chunker.
Import Py Build PyFacts.

(** With enough iterations allowed the loop returns, and its chunks are the
    slices at the recorded cuts. *)
Lemma dividir_bucle_cortes fuel texto tamano overlap inicio chunks :
  (Z.to_nat (len texto - inicio) < fuel)%nat →
  dividir_bucle fuel texto tamano overlap inicio chunks
  = Some (chunks ++ ((λ ab, slice texto ab.1 ab.2)
                       <$> cortes_bucle fuel (len texto) tamano overlap inicio)).
Proof.
  revert inicio chunks.
  induction fuel as [|fuel IH]; intros inicio chunks Hf; [lia|]. simpl.
  destruct (Z.ltb_spec inicio (len texto)) as [Hlt|Hge].
  - destruct (Z.geb_spec (inicio + tamano) (len texto)) as [Hfin|Hfin].
    + done.
    + rewrite IH by lia. simpl. by rewrite <- app_assoc.
  - simpl. by rewrite app_nil_r.
Qed.

Lemma cortes_bucle_fuel f1 f2 n tamano overlap inicio :
  (Z.to_nat (n - inicio) < f1)%nat → (Z.to_nat (n - inicio) < f2)%nat →
  cortes_bucle f1 n tamano overlap inicio
  = cortes_bucle f2 n tamano overlap inicio.
Proof.
  revert f2 inicio.
  induction f1 as [|f1 IH]; intros [|f2] inicio H1 H2; try lia. simpl.
  destruct (Z.ltb_spec inicio n); [|done].
  destruct (Z.geb_spec (inicio + tamano) n); [done|].
  f_equal. apply IH; lia.
Qed.

Lemma cortes_bucle_length fuel n tamano overlap inicio :
  (length (cortes_bucle fuel n tamano overlap inicio)
   ≤ Z.to_nat (n - inicio))%nat.
Proof.
  revert inicio. induction fuel as [|fuel IH]; intros inicio; simpl; [lia|].
  destruct (Z.ltb_spec inicio n); simpl; [|lia].
  destruct (Z.geb_spec (inicio + tamano) n); simpl; [lia|].
  specialize (IH (Z.max (inicio + tamano - overlap) (inicio + 1))). lia.
Qed.

(** Every recorded cut starts inside the text, ends [tamano] later, and is
    followed, if at all, by the cut the update of [inicio] prescribes. *)
Lemma cortes_bucle_lookup fuel n tamano overlap inicio k a b :
  cortes_bucle fuel n tamano overlap inicio !! k = Some (a, b) →
  inicio ≤ a ∧ a < n ∧ b = a + tamano
  ∧ (k = 0%nat → a = inicio)
  ∧ ∀ a' b', cortes_bucle fuel n tamano overlap inicio !! S k = Some (a', b') →
      b < n ∧ a' = Z.max (b - overlap) (a + 1).
Proof.
  revert inicio k.
  induction fuel as [|fuel IH]; intros inicio k; simpl; [done|].
  destruct (Z.ltb_spec inicio n) as [Hlt|]; [|done].
  destruct k as [|k]; simpl.
  - intros [= <- <-]. split_and!; try lia; try done.
    intros a' b'.
    destruct (Z.geb_spec (inicio + tamano) n); [done|].
    destruct fuel as [|fuel]; [done|]. simpl.
    destruct (Z.ltb_spec (Z.max (inicio + tamano - overlap) (inicio + 1)) n);
      [|done].
    simpl. intros [= <- _]. lia.
  - destruct (Z.geb_spec (inicio + tamano) n); [done|].
    intros Hk. destruct (IH _ _ Hk) as (? & ? & ? & _ & Hnext).
    split_and!; try lia; try done.
Qed.

(** When a chunk may not be empty and the overlap is not negative, each
    position from [inicio] on lies inside some recorded cut. *)
Lemma cortes_bucle_cubre fuel n tamano overlap inicio p :
  1 ≤ tamano → 0 ≤ overlap →
  (Z.to_nat (n - inicio) < fuel)%nat →
  inicio ≤ p → p < n →
  ∃ k a b, cortes_bucle fuel n tamano overlap inicio !! k = Some (a, b)
           ∧ a ≤ p ∧ p < b.
Proof.
  intros HL HO. revert inicio.
  induction fuel as [|fuel IH]; intros inicio Hf Hip Hpn; [lia|]. simpl.
  destruct (Z.ltb_spec inicio n); [|lia].
  destruct (Z.lt_ge_cases p (inicio + tamano)) as [Hin|Hout].
  - exists 0%nat, inicio, (inicio + tamano). by repeat split.
  - destruct (Z.geb_spec (inicio + tamano) n); [lia|].
    destruct (IH (Z.max (inicio + tamano - overlap) (inicio + 1)))
      as (k & a & b & Hk & ? & ?); try lia.
    exists (S k), a, b. by repeat split.
Qed.

Lemma dividir_texto_cortes texto tamano overlap :
  dividir_texto texto tamano overlap
  = (λ ab, slice texto ab.1 ab.2) <$> cortes texto tamano overlap.
Proof.
  unfold dividir_texto, cortes.
  rewrite dividir_bucle_cortes by (unfold len; lia). done.
Qed.

Lemma dividir_texto_lookup texto tamano overlap k c :
  dividir_texto texto tamano overlap !! k = Some c ↔
  ∃ a b, cortes texto tamano overlap !! k = Some (a, b) ∧ c = slice texto a b.
Proof.
  rewrite dividir_texto_cortes, list_lookup_fmap. split.
  - destruct (cortes _ _ _ !! k) as [[a b]|]; simpl; [|done].
    intros [= <-]. eauto.
  - intros (a & b & -> & ->). done.
Qed.

(** Two consecutive cuts: where the first ends and where the second starts. *)
Lemma cortes_consecutivos texto tamano overlap k a b a' b' :
  cortes texto tamano overlap !! k = Some (a, b) →
  cortes texto tamano overlap !! S k = Some (a', b') →
  0 ≤ a ∧ b = a + tamano ∧ b < len texto
  ∧ a' = Z.max (b - overlap) (a + 1) ∧ a' < len texto ∧ b' = a' + tamano.
Proof.
  unfold cortes. intros Hk Hk'.
  destruct (cortes_bucle_lookup _ _ _ _ _ _ _ _ Hk) as (? & ? & ? & _ & Hn).
  destruct (Hn _ _ Hk') as [? ?].
  destruct (cortes_bucle_lookup _ _ _ _ _ _ _ _ Hk') as (? & ? & ? & _).
  split_and!; try done; lia.
Qed.

(** C5. For every text and every pair of parameters, so in particular for
    every [tamano >= 1] and [overlap >= 0] with [overlap >= tamano] allowed,
    the loop of the chunker ends: [len(texto) + 1] iterations (or any larger
    number) give the result, which has at most [len(texto)] chunks; chunk [k]
    is the slice [texto[a:b]] of the k-th cut, and the start of each cut is
    strictly greater than the start of the cut before it. *)
Theorem dividir_texto_termina (texto : str) (tamano overlap : Z) :
  (∀ fuel, (length texto < fuel)%nat →
     dividir_bucle fuel texto tamano overlap 0 []
     = Some (dividir_texto texto tamano overlap))
  ∧ (length (dividir_texto texto tamano overlap) ≤ length texto)%nat
  ∧ dividir_texto texto tamano overlap
    = (λ ab, slice texto ab.1 ab.2) <$> cortes texto tamano overlap
  ∧ ∀ k a b a' b',
      cortes texto tamano overlap !! k = Some (a, b) →
      cortes texto tamano overlap !! S k = Some (a', b') →
      0 ≤ a ∧ a < a' ∧ a' < len texto.
Proof.
  split; [|split; [|split]].
  - intros fuel Hf. rewrite dividir_texto_cortes.
    rewrite dividir_bucle_cortes by (unfold len; lia). simpl. do 2 f_equal.
    unfold cortes. apply cortes_bucle_fuel; unfold len; lia.
  - rewrite dividir_texto_cortes, length_fmap. unfold cortes.
    pose proof (cortes_bucle_length (S (length texto)) (len texto)
                  tamano overlap 0). unfold len in *. lia.
  - apply dividir_texto_cortes.
  - unfold cortes. intros k a b a' b' Hk Hk'.
    destruct (cortes_bucle_lookup _ _ _ _ _ _ _ _ Hk) as (? & ? & ? & _ & Hn).
    destruct (Hn _ _ Hk') as [? ->].
    destruct (cortes_bucle_lookup _ _ _ _ _ _ _ _ Hk') as (? & ? & _).
    lia.
Qed.

End Chunker.

(** ** Consecutive chunks, coverage and the worked example *)

Module ChunkerRules.
Import Py Build PyFacts Chunker.

(** C2, as stated, fails. For [texto = abcdefghij], [tamano = 4] and
    [overlap = 1] the chunks are [abcd], [defg], [ghij]: the second one begins
    at 3, which is [max(4 - 1, 0 + 1)] and not [min(4 - 1, 0 + 1) = 1]. *)
Lemma siguiente_inicio_no_es_min :
  dividir_texto (lit "abcdefghij") 4 1
    = [lit "abcd"; lit "defg"; lit "ghij"]
  ∧ cortes (lit "abcdefghij") 4 1 = [(0, 4); (3, 7); (6, 10)]
  ∧ ¬ (∀ (texto : str) (tamano overlap : Z) (k : nat) (a b a' b' : Z),
         overlap < tamano →
         cortes texto tamano overlap !! k = Some (a, b) →
         cortes texto tamano overlap !! S k = Some (a', b') →
         a' = Z.min (b - overlap) (a + 1)).
Proof.
  split_and!; [reflexivity..|].
  intros H.
  specialize (H (lit "abcdefghij") 4 1 0%nat 0 4 3 7).
  discriminate H; [lia|reflexivity..].
Qed.

(** C2, amended. For every text and parameters, if chunk [k] and chunk
    [k + 1] exist they are the slices [texto[a:b]] and [texto[a':b']] of two
    consecutive cuts, where [b = a + tamano] is the end of chunk [k] (it lies
    before the end of the text) and chunk [k + 1] begins at
    [a' = max(b - overlap, a + 1)]; with [overlap < tamano] that is
    [b - overlap]. *)
Theorem siguiente_inicio_es_max (texto : str) (tamano overlap : Z)
    (k : nat) (c c' : str) :
  dividir_texto texto tamano overlap !! k = Some c →
  dividir_texto texto tamano overlap !! S k = Some c' →
  ∃ a b a' b',
    cortes texto tamano overlap !! k = Some (a, b)
    ∧ cortes texto tamano overlap !! S k = Some (a', b')
    ∧ c = slice texto a b ∧ c' = slice texto a' b'
    ∧ 0 ≤ a ∧ b = a + tamano ∧ b < len texto
    ∧ a' = Z.max (b - overlap) (a + 1)
    ∧ (overlap < tamano → a' = b - overlap).
Proof.
  intros (a & b & Hk & ->)%dividir_texto_lookup
         (a' & b' & Hk' & ->)%dividir_texto_lookup.
  exists a, b, a', b'.
  destruct (cortes_consecutivos _ _ _ _ _ _ _ _ Hk Hk')
    as (? & ? & ? & ? & _).
  split_and!; try done; lia.
Qed.

Lemma siguiente_inicio_es_max_witness :
  ∃ a b a' b',
    cortes (lit "abcdefghij") 4 1 !! 0%nat = Some (a, b)
    ∧ cortes (lit "abcdefghij") 4 1 !! 1%nat = Some (a', b')
    ∧ lit "abcd" = slice (lit "abcdefghij") a b
    ∧ lit "defg" = slice (lit "abcdefghij") a' b'
    ∧ 0 ≤ a ∧ b = a + 4 ∧ b < len (lit "abcdefghij")
    ∧ a' = Z.max (b - 1) (a + 1)
    ∧ (1 < 4 → a' = b - 1).
Proof.
  apply (siguiente_inicio_es_max (lit "abcdefghij") 4 1 0); reflexivity.
Defined.

(** C4. For every text and parameters with [0 <= overlap < tamano]: every
    position of the text lies inside the cut of some chunk, which holds the
    character of that position; and any two consecutive chunks, the last pair
    included, share exactly the [overlap] positions from the start of the
    second to the end of the first, the first being [tamano] long and its last
    [overlap] characters being the first [overlap] characters of the
    second. *)
Theorem dividir_texto_cubre_y_solapa (texto : str) (tamano overlap : Z) :
  0 ≤ overlap → overlap < tamano →
  (∀ (p : nat) (ch : char), texto !! p = Some ch →
     ∃ k a b,
       cortes texto tamano overlap !! k = Some (a, b)
       ∧ dividir_texto texto tamano overlap !! k = Some (slice texto a b)
       ∧ 0 ≤ a ∧ a ≤ Z.of_nat p ∧ Z.of_nat p < b
       ∧ slice texto a b !! (p - Z.to_nat a)%nat = Some ch)
  ∧ (∀ (k : nat) (c c' : str),
       dividir_texto texto tamano overlap !! k = Some c →
       dividir_texto texto tamano overlap !! S k = Some c' →
       ∃ a b a' b',
         cortes texto tamano overlap !! k = Some (a, b)
         ∧ cortes texto tamano overlap !! S k = Some (a', b')
         ∧ c = slice texto a b ∧ c' = slice texto a' b'
         ∧ a < a' ∧ a' ≤ b ∧ b < b' ∧ b < len texto
         ∧ b - a' = overlap
         ∧ len c = tamano ∧ overlap < len c'
         ∧ drop (Z.to_nat (tamano - overlap)) c = take (Z.to_nat overlap) c').
Proof.
  intros HO HL. split.
  - intros p ch Hp.
    pose proof (lookup_lt_Some _ _ _ Hp) as Hlt.
    destruct (cortes_bucle_cubre (S (length texto)) (len texto) tamano overlap
                0 (Z.of_nat p)) as (k & a & b & Hk & Ha & Hb);
      try (unfold len; lia).
    destruct (cortes_bucle_lookup _ _ _ _ _ _ _ _ Hk) as (? & ? & ? & _).
    exists k, a, b. split_and!; try done; try lia.
    + apply dividir_texto_lookup. eauto.
    + replace (p - Z.to_nat a)%nat with (Z.to_nat (Z.of_nat p - a)) by lia.
      rewrite slice_lookup by lia. by rewrite Nat2Z.id.
  - intros k c c' (a & b & Hk & ->)%dividir_texto_lookup
           (a' & b' & Hk' & ->)%dividir_texto_lookup.
    destruct (cortes_consecutivos _ _ _ _ _ _ _ _ Hk Hk')
      as (? & ? & ? & ? & ? & ?).
    exists a, b, a', b'.
    assert (Hlen : len (slice texto a b) = tamano)
      by (rewrite slice_length; lia).
    assert (Hlen' : overlap < len (slice texto a' b')).
    { rewrite slice_nonneg by lia. unfold len in *.
      rewrite length_take, length_drop. lia. }
    split_and!; try done; try lia.
    rewrite !slice_nonneg by lia. apply list_eq. intros j.
    rewrite !lookup_drop, !lookup_take, !lookup_drop.
    repeat case_decide; try done; try lia.
    f_equal. lia.
Qed.

Lemma dividir_texto_cubre_y_solapa_witness :
  0 ≤ 1 ∧ 1 < 4
  ∧ (∃ k a b,
       cortes (lit "abcdefghij") 4 1 !! k = Some (a, b)
       ∧ dividir_texto (lit "abcdefghij") 4 1 !! k
         = Some (slice (lit "abcdefghij") a b)
       ∧ 0 ≤ a ∧ a ≤ 5 ∧ 5 < b
       ∧ slice (lit "abcdefghij") a b !! (5 - Z.to_nat a)%nat = Some 102%N)
  ∧ (∃ a b a' b',
       cortes (lit "abcdefghij") 4 1 !! 0%nat = Some (a, b)
       ∧ cortes (lit "abcdefghij") 4 1 !! 1%nat = Some (a', b')
       ∧ lit "abcd" = slice (lit "abcdefghij") a b
       ∧ lit "defg" = slice (lit "abcdefghij") a' b'
       ∧ a < a' ∧ a' ≤ b ∧ b < b' ∧ b < len (lit "abcdefghij")
       ∧ b - a' = 1
       ∧ len (lit "abcd") = 4 ∧ 1 < len (lit "defg")
       ∧ drop (Z.to_nat (4 - 1)) (lit "abcd")
         = take (Z.to_nat 1) (lit "defg")).
Proof.
  split; [lia|]. split; [lia|]. split.
  - apply (proj1 (dividir_texto_cubre_y_solapa (lit "abcdefghij") 4 1
                    ltac:(lia) ltac:(lia)) 5%nat 102%N).
    reflexivity.
  - apply (proj2 (dividir_texto_cubre_y_solapa (lit "abcdefghij") 4 1
                    ltac:(lia) ltac:(lia)) 0%nat (lit "abcd") (lit "defg"));
      reflexivity.
Defined.

(** C3, as stated, fails: 2000 times the letter A with [tamano = 1000] and
    [overlap = 200] gives three chunks, but the third one is 400 characters
    long, not 200, in [todos_los_chunks] and in [metadatos] alike. *)
Lemma ejemplo_2000_tercero_no_200 :
  ∃ todos_los_chunks metadatos,
    chunks_y_metadatos [replicate 2000 65%N] [lit "a.txt"]
      = Some (todos_los_chunks, metadatos)
    ∧ length <$> todos_los_chunks ≠ [1000; 1000; 200]%nat
    ∧ (λ r, length (texto r)) <$> metadatos ≠ [1000; 1000; 200]%nat.
Proof.
  eexists _, _. split; [vm_compute; reflexivity|].
  split; vm_compute; discriminate.
Qed.

(** C3, amended. One document of 2000 identical characters that are not
    whitespace, chunked with [tamano = 1000] and [overlap = 200], gives
    exactly three chunks, cut at 0, 800 and 1600, of lengths 1000, 1000 and
    400, and three records numbered 0, 1, 2 holding the same texts. *)
Theorem ejemplo_2000 (c : char) (fuente_doc : str) :
  isspace c = false →
  cortes (replicate 2000 c) 1000 200 = [(0, 1000); (800, 1800); (1600, 2600)]
  ∧ dividir_texto (replicate 2000 c) 1000 200
    = [replicate 1000 c; replicate 1000 c; replicate 400 c]
  ∧ chunks_y_metadatos [replicate 2000 c] [fuente_doc]
    = Some ([replicate 1000 c; replicate 1000 c; replicate 400 c],
            [Registro 0 fuente_doc (replicate 1000 c);
             Registro 1 fuente_doc (replicate 1000 c);
             Registro 2 fuente_doc (replicate 400 c)]).
Proof.
  intros Hc.
  assert (Hcortes : cortes (replicate 2000 c) 1000 200
                    = [(0, 1000); (800, 1800); (1600, 2600)]).
  { unfold cortes, len. rewrite length_replicate. vm_compute. reflexivity. }
  assert (Hslice : ∀ a b m, 0 ≤ a → a ≤ b →
            Z.to_nat (Z.min b 2000 - Z.min a 2000) = m →
            slice (replicate 2000 c) a b = replicate m c).
  { intros a b m ? ? <-. rewrite slice_replicate by lia. f_equal. }
  assert (Hdiv : dividir_texto (replicate 2000 c) 1000 200
                 = [replicate 1000 c; replicate 1000 c; replicate 400 c]).
  { rewrite dividir_texto_cortes, Hcortes.
    cbn [fmap list_fmap fst snd].
    rewrite (Hslice 0 1000 1000%nat), (Hslice 800 1800 1000%nat),
      (Hslice 1600 2600 400%nat) by (lia || (vm_compute; reflexivity)).
    reflexivity. }
  split_and!; [done..|].
  unfold chunks_y_metadatos, enumerate.
  rewrite (length_cons (replicate 2000 c) []).
  cbn [length seq zip_with for_ procesar_documento].
  rewrite strip_replicate by done.
  rewrite bool_decide_eq_false_2 by (intros Hnil; discriminate Hnil).
  rewrite Hdiv.
  cbn [for_ agregar_chunk mbind option_bind app lookup list_lookup len length].
  rewrite !strip_replicate by done.
  reflexivity.
Qed.

Lemma ejemplo_2000_witness :
  isspace 65%N = false
  ∧ dividir_texto (replicate 2000 65%N) 1000 200
    = [replicate 1000 65%N; replicate 1000 65%N; replicate 400 65%N].
Proof.
  split; [reflexivity|].
  apply (ejemplo_2000 65%N (lit "a.txt")). reflexivity.
Defined.

End ChunkerRules.

(** ** The loop over the documents and the embedding loop *)

Module Ingestion.
Import Py Build PyFacts.

Lemma agregar_chunks_todos fuentes i chunks st st' :
  for_ (agregar_chunk fuentes i) chunks st = Some st' →
  st'.1 = st.1 ++ chunks.
Proof.
  revert st. induction chunks as [|c chunks IH]; intros [todos metas]; simpl.
  - intros [= <-]. by rewrite app_nil_r.
  - destruct (fuentes !! i) as [f|]; simpl; [|done].
    intros H. rewrite (IH _ H). simpl. by rewrite <- app_assoc.
Qed.

(** [todos_los_chunks] holds, in order, the slices the chunker cuts from the
    documents that are not blank: nothing is trimmed there. *)
Lemma documentos_todos fuentes its st st' :
  for_ (procesar_documento fuentes) its st = Some st' →
  st'.1 = st.1 ++ concat ((λ it, dividir_texto it.2 1000 200)
                            <$> filter (λ it, strip it.2 ≠ []) its).
Proof.
  revert st. induction its as [|[i t] its IH]; intros st; simpl.
  - intros [= <-]. by rewrite app_nil_r.
  - rewrite filter_cons. simpl. case_bool_decide as Hb; simpl.
    + rewrite decide_False by (by intros ?). apply IH.
    + rewrite decide_True by done.
      destruct (for_ (agregar_chunk fuentes i) _ st) as [st1|] eqn:E;
        simpl; [|done].
      intros H. rewrite (IH _ H), (agregar_chunks_todos _ _ _ _ _ E).
      simpl. by rewrite <- app_assoc.
Qed.

Lemma agregar_chunk_alineados fuentes i st chunk st' :
  alineados st → agregar_chunk fuentes i st chunk = Some st' → alineados st'.
Proof.
  destruct st as [todos metas]. intros [Ht Hid]. unfold agregar_chunk.
  destruct (fuentes !! i) as [f|]; simpl; [|done]. intros [= <-].
  unfold alineados in *. simpl in *.
  rewrite !fmap_app, Ht, Hid. split; [done|].
  unfold len. rewrite length_app. simpl length.
  rewrite Nat.add_1_r, seq_S, fmap_app. simpl. do 3 f_equal. lia.
Qed.

Lemma procesar_documento_alineados fuentes st it st' :
  alineados st → procesar_documento fuentes st it = Some st' → alineados st'.
Proof.
  destruct it as [i t]. unfold procesar_documento.
  case_bool_decide; [by intros ? [= <-]|].
  intros Hst. apply for__inv; [|done].
  intros ? ? ?. apply agregar_chunk_alineados.
Qed.

Lemma chunks_y_metadatos_alineados textos fuentes todos metadatos :
  chunks_y_metadatos textos fuentes = Some (todos, metadatos) →
  texto <$> metadatos = strip <$> todos
  ∧ chunk_id <$> metadatos = Z.of_nat <$> seq 0 (length todos)
  ∧ length metadatos = length todos.
Proof.
  intros H.
  assert (Ha : alineados (todos, metadatos)).
  { revert H. apply for__inv; [|by split].
    intros ? ? ?. apply procesar_documento_alineados. }
  destruct Ha as [Ht Hid]. simpl in *. split_and!; try done.
  by rewrite <- (length_fmap texto), Ht, length_fmap.
Qed.

Lemma lotes_take_drop (l : list str) :
  lotes l
  = (λ j, take 32 (drop (j * 32) l)) <$> seq 0 ((length l + 32 - 1) / 32).
Proof.
  unfold lotes, range0. change (Z.to_nat BATCH_SIZE) with 32%nat.
  rewrite <- list_fmap_compose. apply list_fmap_ext. intros _ j _. simpl.
  unfold BATCH_SIZE. rewrite slice_nonneg by lia. f_equal; [lia|].
  f_equal. lia.
Qed.

Lemma concat_take_drop {A} (l : list A) (b m : nat) :
  concat ((λ j, take b (drop (j * b) l)) <$> seq 0 m) = take (m * b) l.
Proof.
  induction m as [|m IH]; [done|].
  rewrite seq_S, fmap_app, concat_app, IH. simpl.
  rewrite app_nil_r, take_take_drop. f_equal. lia.
Qed.

(** The batches, one after the other, are the list of chunks. *)
Lemma lotes_concat (l : list str) : concat (lotes l) = l.
Proof.
  rewrite lotes_take_drop, concat_take_drop. apply take_ge.
  pose proof (Nat.div_mod_eq (length l + 32 - 1) 32).
  pose proof (Nat.mod_upper_bound (length l + 32 - 1) 32). lia.
Qed.

Section Servicio.
Context {coord coord32 api : Type}.
Variable float32 : coord → coord32.
Variable embeddings_create :
  api → str → list str → api * (excepcion + list (list coord)).

(** The inputs of the calls made are the first batches, in order. *)
Lemma vectorizar_bucle_registrar batches cliente log acc :
  ∃ n, (vectorizar_bucle (registrar embeddings_create) batches
          (cliente, log) acc).1.2 = log ++ take n batches.
Proof.
  revert cliente log acc.
  induction batches as [|b batches IH]; intros cliente log acc; simpl.
  - exists 0%nat. by rewrite app_nil_r.
  - unfold registrar at 1. simpl.
    destruct (embeddings_create cliente NOMBRE_MODELO_NOMIC b) as [c' [e|r]].
    + exists 1%nat. done.
    + destruct (IH c' (log ++ [b]) (acc ++ r)) as [n Hn].
      exists (S n). rewrite Hn. simpl. by rewrite <- app_assoc.
Qed.

(** With a service that answers every call with one vector per input, the
    vector being a function of the input text, the loop makes all the calls
    and leaves in [embeddings_list] the vectors of the chunks, in order. *)
Lemma vectorizar_bucle_puntual (embed1 : str → list coord) batches :
  (∀ c model input,
     (embeddings_create c model input).2 = inr (embed1 <$> input)) →
  ∀ cliente log acc,
    (vectorizar_bucle embeddings_create batches cliente acc).2
      = acc ++ (embed1 <$> concat batches)
    ∧ (vectorizar_bucle (registrar embeddings_create) batches
         (cliente, log) acc).1.2 = log ++ batches.
Proof.
  intros Hsvc.
  induction batches as [|b batches IH]; intros cliente log acc; simpl.
  - by rewrite !app_nil_r.
  - unfold registrar at 1. simpl. specialize (Hsvc cliente NOMBRE_MODELO_NOMIC b).
    destruct (embeddings_create cliente NOMBRE_MODELO_NOMIC b) as [c' r].
    simpl in Hsvc. subst r.
    destruct (IH c' (log ++ [b]) (acc ++ (embed1 <$> b))) as [-> ->].
    by rewrite fmap_app, <- !app_assoc.
Qed.

(** With a service that keeps to one vector per input and never raises,
    [embeddings_list] ends as long as the list of chunks. *)
Lemma vectorizar_bucle_contrato batches :
  (∀ c model input, ∃ data,
     (embeddings_create c model input).2 = inr data
     ∧ length data = length input) →
  ∀ cliente acc,
    length (vectorizar_bucle embeddings_create batches cliente acc).2
    = (length acc + length (concat batches))%nat.
Proof.
  intros Hsvc.
  induction batches as [|b batches IH]; intros cliente acc; simpl; [lia|].
  destruct (Hsvc cliente NOMBRE_MODELO_NOMIC b) as (data & Hd & Hlen).
  destruct (embeddings_create cliente NOMBRE_MODELO_NOMIC b) as [c' r].
  simpl in Hd. subst r. rewrite IH, !length_app. lia.
Qed.

Lemma np_array_Some (rows : list (list coord)) (a : list (list coord32)) :
  np_array float32 rows = Some a → a = (λ r : list coord, float32 <$> r) <$> rows.
Proof.
  unfold np_array. destruct rows; [by intros [= <-]|].
  case_match; [by intros [= <-]|done].
Qed.

(** Rows of one length make an array. *)
Lemma np_array_uniforme (rows : list (list coord)) :
  (∀ r r', r ∈ rows → r' ∈ rows → length r = length r') →
  np_array float32 rows = Some ((λ r : list coord, float32 <$> r) <$> rows).
Proof.
  intros Hu. unfold np_array. destruct rows as [|r rows]; [done|].
  rewrite (proj2 (forallb_forall _ _)); [done|].
  intros r' Hr'%list_elem_of_In. apply bool_decide_eq_true_2.
  apply Hu; [done|left].
Qed.

(** What a run that writes the two files has gone through. *)
Lemma build_Some cliente textos fuentes index metadatos :
  build float32 embeddings_create cliente textos fuentes
    = Some (index, metadatos) →
  ∃ todos,
    chunks_y_metadatos textos fuentes = Some (todos, metadatos)
    ∧ xb index
      = (λ r : list coord, float32 <$> r)
          <$> (vectorizar embeddings_create cliente todos).2
    ∧ xb index ≠ [].
Proof.
  unfold build. case_bool_decide; [done|].
  destruct (chunks_y_metadatos textos fuentes) as [[todos metas]|]; [|done].
  simpl. destruct (vectorizar _ cliente todos) as [c' emb] eqn:Ev.
  destruct (np_array float32 emb) as [a|] eqn:Ea; simpl; [|done].
  apply np_array_Some in Ea as ->.
  destruct (Z.eqb_spec (len ((λ r : list coord, float32 <$> r) <$> emb)) 0)
    as [|Hne]; [done|].
  intros [= <- <-]. exists todos. simpl. split_and!; [done| |].
  - by rewrite Ev.
  - intros Hnil. apply Hne. by rewrite Hnil.
Qed.

(** When no call fails and the service gives one vector per input, a run
    that writes the two files writes as many rows as records. *)
Lemma build_sin_fallos_alineado cliente textos fuentes index metadatos :
  (∀ c model input, ∃ data,
     (embeddings_create c model input).2 = inr data
     ∧ length data = length input) →
  build float32 embeddings_create cliente textos fuentes
    = Some (index, metadatos) →
  ntotal index = len metadatos.
Proof.
  intros Hsvc (todos & Hcm & Hxb & _)%build_Some.
  apply chunks_y_metadatos_alineados in Hcm as (_ & _ & Hlen).
  unfold ntotal, len, vectorizar in *.
  rewrite Hxb, length_fmap, vectorizar_bucle_contrato, lotes_concat by done.
  simpl. lia.
Qed.

End Servicio.

End Ingestion.

(** ** The persisted pair: blank documents, alignment, trimming *)

Module Pipeline.
Import Py Build PyFacts Ingestion.

(** C6. A text that is empty or made of whitespace only adds nothing to
    [todos_los_chunks] nor to [metadatos]: the body of the loop over the
    documents leaves both as they are, a run over that text alone ends with
    both empty, and a run over any list of documents ends as the run without
    that text does. For the empty text the chunker itself returns no chunk. *)
Theorem texto_en_blanco_sin_chunks (texto_doc : str) :
  Forall (λ c, isspace c = true) texto_doc →
  (∀ fuentes st i, procesar_documento fuentes st (i, texto_doc) = Some st)
  ∧ (∀ fuentes, chunks_y_metadatos [texto_doc] fuentes = Some ([], []))
  ∧ (∀ fuentes its1 its2 i st,
       for_ (procesar_documento fuentes) (its1 ++ (i, texto_doc) :: its2) st
       = for_ (procesar_documento fuentes) (its1 ++ its2) st)
  ∧ (texto_doc = [] →
     ∀ tamano overlap, dividir_texto texto_doc tamano overlap = []).
Proof.
  intros Hblank.
  assert (Hbody : ∀ fuentes st i,
            procesar_documento fuentes st (i, texto_doc) = Some st).
  { intros fuentes st i. unfold procesar_documento.
    by rewrite (strip_blank _ Hblank), bool_decide_eq_true_2. }
  split_and!.
  - done.
  - intros fuentes. unfold chunks_y_metadatos, enumerate.
    cbn [length seq zip_with for_]. by rewrite Hbody.
  - intros fuentes its1 its2 i st. rewrite !for__app.
    destruct (for_ _ its1 st) as [st1|]; [|done].
    cbn [mbind option_bind for_]. by rewrite Hbody.
  - by intros ->.
Qed.

Lemma texto_en_blanco_sin_chunks_witness :
  Forall (λ c, isspace c = true) [32%N; 9%N; 10%N]
  ∧ chunks_y_metadatos [[32%N; 9%N; 10%N]] [lit "a.txt"] = Some ([], []).
Proof.
  assert (H : Forall (λ c, isspace c = true) [32%N; 9%N; 10%N])
    by (repeat constructor).
  split; [exact H|].
  apply (texto_en_blanco_sin_chunks [32%N; 9%N; 10%N] H).
Defined.

(** C1 at a failing input. One document of 26000 letters gives thirty-three
    chunks, so two batches; the service answers the first call with one
    vector per input and raises on the second. The run goes on and writes
    both files: the index holds 32 rows, [chunks.json] 33 records. *)
Theorem build_fallo_parcial_desalineado :
  ∃ index metadatos,
    build Dobles.float32 (Dobles.servicio 1) 0%nat
      [replicate 26000 97%N] [lit "a.txt"]
    = Some (index, metadatos)
    ∧ ntotal index = 32 ∧ len metadatos = 33.
Proof.
  eexists _, _. split; [vm_compute; reflexivity|]. split; reflexivity.
Qed.

(** C10. In every run of the loop over the documents, [todos_los_chunks]
    holds the slices as the chunker cut them and record [i] holds the trimmed
    text of chunk [i]. The inputs of the calls to the embedding service are
    batches of [todos_los_chunks], in order, so untrimmed; and when the
    service answers each input text with a vector that depends on that text
    only, the vectors obtained are those of the untrimmed chunks. If moreover
    there is a chunk and these vectors have one length, the run writes the
    two files, and row [i] of the index written is the vector of the
    untrimmed chunk [i], rounded to single precision, while the [texto] of
    record [i] is the trimmed form of that chunk. *)
Theorem embedding_sin_recortar_texto_recortado {coord coord32 api : Type}
    (float32 : coord → coord32)
    (embeddings_create :
       api → str → list str → api * (excepcion + list (list coord)))
    (cliente : api) (textos fuentes : list str)
    (todos : list str) (metadatos : list registro) :
  chunks_y_metadatos textos fuentes = Some (todos, metadatos) →
  todos = concat ((λ it, dividir_texto it.2 1000 200)
                    <$> filter (λ it, strip it.2 ≠ []) (enumerate textos))
  ∧ (∀ i raw, todos !! i = Some raw →
       texto <$> metadatos !! i = Some (strip raw))
  ∧ concat (lotes todos) = todos
  ∧ (∃ n, (vectorizar (registrar embeddings_create) (cliente, []) todos).1.2
          = take n (lotes todos))
  ∧ ∀ embed1 : str → list coord,
      (∀ c model input,
         (embeddings_create c model input).2 = inr (embed1 <$> input)) →
      (vectorizar (registrar embeddings_create) (cliente, []) todos).1.2
        = lotes todos
      ∧ (vectorizar embeddings_create cliente todos).2 = embed1 <$> todos
      ∧ (todos ≠ [] →
         (∀ t t', t ∈ todos → t' ∈ todos →
                  length (embed1 t) = length (embed1 t')) →
         ∃ index,
           build float32 embeddings_create cliente textos fuentes
             = Some (index, metadatos)
           ∧ xb index = (λ raw, float32 <$> embed1 raw) <$> todos
           ∧ ∀ i raw, todos !! i = Some raw →
               xb index !! i = Some (float32 <$> embed1 raw)
               ∧ texto <$> metadatos !! i = Some (strip raw))
      ∧ ∀ index metas,
          build float32 embeddings_create cliente textos fuentes
            = Some (index, metas) →
          metas = metadatos
          ∧ ∀ i raw, todos !! i = Some raw →
              xb index !! i = Some (float32 <$> embed1 raw)
              ∧ texto <$> metas !! i = Some (strip raw).
Proof.
  intros Hcm.
  pose proof (chunks_y_metadatos_alineados _ _ _ _ Hcm) as (Ht & _ & _).
  assert (Htexto : ∀ i raw, todos !! i = Some raw →
            texto <$> metadatos !! i = Some (strip raw)).
  { intros i raw Hi. rewrite <- list_lookup_fmap, Ht, list_lookup_fmap.
    by rewrite Hi. }
  split_and!.
  - apply documentos_todos in Hcm. exact Hcm.
  - done.
  - apply lotes_concat.
  - unfold vectorizar.
    destruct (vectorizar_bucle_registrar embeddings_create (lotes todos)
                cliente [] []) as [n Hn].
    exists n. exact Hn.
  - intros embed1 Hsvc.
    destruct (vectorizar_bucle_puntual embeddings_create embed1
                (lotes todos) Hsvc cliente [] []) as [Hemb Hlog].
    assert (Hvec : (vectorizar embeddings_create cliente todos).2
                   = embed1 <$> todos).
    { unfold vectorizar. rewrite Hemb, lotes_concat. done. }
    assert (Hfila : ∀ i raw, todos !! i = Some raw →
              ((λ raw, float32 <$> embed1 raw) <$> todos) !! i
              = Some (float32 <$> embed1 raw)).
    { intros i raw Hi. by rewrite list_lookup_fmap, Hi. }
    split_and!.
    + exact Hlog.
    + exact Hvec.
    + intros Hne Hu.
      assert (Hnp : np_array float32 (embed1 <$> todos)
                    = Some ((λ r : list coord, float32 <$> r)
                              <$> (embed1 <$> todos))).
      { apply np_array_uniforme.
        intros r r' (t & -> & Hin)%list_elem_of_fmap
               (t' & -> & Hin')%list_elem_of_fmap. by apply Hu. }
      assert (Htextos : textos ≠ []).
      { intros ->. apply Hne.
        unfold chunks_y_metadatos in Hcm. simpl in Hcm. by injection Hcm. }
      eexists. split; [|split].
      * unfold build. rewrite bool_decide_eq_false_2 by done.
        rewrite Hcm. cbn [mbind option_bind].
        destruct (vectorizar embeddings_create cliente todos) as [c' emb].
        simpl in Hvec. subst emb. rewrite Hnp. cbn [mbind option_bind].
        destruct (Z.eqb_spec
                    (len ((λ r : list coord, float32 <$> r)
                            <$> (embed1 <$> todos))) 0)
          as [H0|_]; [|reflexivity].
        exfalso. unfold len in H0. rewrite !length_fmap in H0.
        destruct todos; [done|]. simpl in H0. lia.
      * simpl. by rewrite <- list_fmap_compose.
      * intros i raw Hi. simpl. rewrite <- list_fmap_compose.
        split; [by apply Hfila|by apply Htexto].
    + intros index metas (todos' & Hcm' & Hxb & _)%build_Some.
      rewrite Hcm in Hcm'. injection Hcm' as <- <-. split; [done|].
      intros i raw Hi. split; [|by apply Htexto].
      rewrite Hxb, Hvec, <- list_fmap_compose. by apply Hfila.
Qed.

(** A document that is the letter A followed by 1999 spaces, and a service
    that gives for a text its length and the length of its trimmed form. The
    second chunk is 1000 spaces: the run writes for it the row of the
    untrimmed text, next to a record whose text is the empty string. *)
Lemma embedding_sin_recortar_texto_recortado_witness :
  chunks_y_metadatos [65%N :: replicate 1999 32%N] [lit "a.txt"]
  = Some ([65%N :: replicate 999 32%N; replicate 1000 32%N;
           replicate 400 32%N],
          [Registro 0 (lit "a.txt") [65%N]; Registro 1 (lit "a.txt") [];
           Registro 2 (lit "a.txt") []])
  ∧ ∃ index,
      build Dobles.float32 Dobles2.servicio_fiel ()
        [65%N :: replicate 1999 32%N] [lit "a.txt"]
      = Some (index,
              [Registro 0 (lit "a.txt") [65%N]; Registro 1 (lit "a.txt") [];
               Registro 2 (lit "a.txt") []])
      ∧ xb index !! 1%nat
        = Some (Dobles.float32
                  <$> [len (replicate 1000 32%N);
                       len (strip (replicate 1000 32%N))])
      ∧ texto <$> [Registro 0 (lit "a.txt") [65%N];
                   Registro 1 (lit "a.txt") [];
                   Registro 2 (lit "a.txt") []] !! 1%nat
        = Some (strip (replicate 1000 32%N))
      ∧ strip (replicate 1000 32%N) = [].
Proof.
  assert (H : chunks_y_metadatos [65%N :: replicate 1999 32%N] [lit "a.txt"]
              = Some ([65%N :: replicate 999 32%N; replicate 1000 32%N;
                       replicate 400 32%N],
                      [Registro 0 (lit "a.txt") [65%N];
                       Registro 1 (lit "a.txt") [];
                       Registro 2 (lit "a.txt") []]))
    by (vm_compute; reflexivity).
  split; [exact H|].
  destruct (proj2 (proj2 (proj2 (proj2
              (embedding_sin_recortar_texto_recortado Dobles.float32
                 Dobles2.servicio_fiel () _ _ _ _ H))))
              (λ t, [len t; len (strip t)]))
    as (_ & _ & Hbuild & _); [reflexivity|].
  destruct Hbuild as (index & Hi & _ & Hrows).
  - intros Hnil. discriminate Hnil.
  - intros t t' _ _. reflexivity.
  - exists index. split; [exact Hi|].
    destruct (Hrows 1%nat (replicate 1000 32%N) eq_refl) as [H1 H2].
    split; [exact H1|]. split; [exact H2|]. vm_compute. reflexivity.
Defined.

End Pipeline.

(** ** The retriever and the answer generator *)

Module Query.
Import Py Chat PyFacts.

(** The loop over the labels appends one block per label that is a position
    of [metadatos], in the order of the labels, and never raises. *)
Lemma recuperar_bucle (metadatos : list registro) (I0 : list Z)
    (ctxs : list str) (fs : gset str) :
  ∃ chunks fs',
    Forall2 (λ idx chunk, metadatos !! Z.to_nat idx = Some chunk)
      (filter (λ idx, 0 ≤ idx < len metadatos) I0) chunks
    ∧ for_ (recuperar metadatos) I0 (ctxs, fs)
      = Some (ctxs ++ (bloque <$> chunks), fs').
Proof.
  revert ctxs fs. induction I0 as [|idx I0 IH]; intros ctxs fs.
  - exists [], fs. simpl. rewrite app_nil_r. by split.
  - rewrite filter_cons. cbn [for_ recuperar].
    destruct (Z.geb_spec idx 0) as [Hge|Hlt];
      [destruct (Z.ltb_spec idx (len metadatos)) as [Hin|Hout]|]; simpl.
    + unfold getitem. destruct (Z.ltb_spec idx 0); [lia|].
      destruct (lookup_lt_is_Some_2 metadatos (Z.to_nat idx)) as [chunk Hc];
        [unfold len in *; lia|].
      rewrite Hc. simpl.
      destruct (IH (ctxs ++ [bloque chunk]) (fs ∪ {[fuente chunk]}))
        as (chunks & fs' & HF & ->).
      exists (chunk :: chunks), fs'. rewrite decide_True by lia.
      split; [by constructor|]. simpl. by rewrite <- app_assoc.
    + rewrite decide_False by lia. apply IH.
    + rewrite decide_False by lia. apply IH.
Qed.

Lemma filter_impl_length {A} (P Q : A → Prop)
    `{∀ x, Decision (P x)} `{∀ x, Decision (Q x)} (l : list A) :
  (∀ x, P x → Q x) → (length (filter P l) ≤ length (filter Q l))%nat.
Proof.
  intros HPQ. induction l as [|x l IH]; [done|].
  rewrite !filter_cons. destruct (decide (P x)) as [HP|].
  - rewrite decide_True by auto. simpl. lia.
  - destruct (decide (Q x)); simpl; lia.
Qed.

(** Distinct integers of [0..n) are at most [n]. *)
Lemma NoDup_below_length (l : list Z) (n : Z) :
  0 ≤ n → NoDup l → (∀ x, x ∈ l → 0 ≤ x < n) → len l ≤ n.
Proof.
  intros Hn Hnd Hin.
  assert (Hsub : l ⊆+ seqZ 0 n).
  { apply NoDup_submseteq; [done|]. intros x Hx. apply elem_of_seqZ.
    specialize (Hin x Hx). lia. }
  apply submseteq_length in Hsub. rewrite length_seqZ in Hsub.
  unfold len. lia.
Qed.

Lemma join_cons_cons (sep p q : str) (ps : list str) :
  join sep (p :: q :: ps) = p ++ sep ++ join sep (q :: ps).
Proof. done. Qed.

Section Retriever.
Context {vector Index : Type}.
Variable search : Index → vector → Z → list Z.

(** What the query flow computes, for any row of labels. *)
Lemma buscar_contexto_filtra_aux (vector_pregunta : vector) (index : Index)
    (metadatos : list registro) (k : Z) :
  ∃ chunks,
    Forall2 (λ idx chunk, metadatos !! Z.to_nat idx = Some chunk)
      (filter (λ idx, 0 ≤ idx < len metadatos)
         (search index vector_pregunta k)) chunks
    ∧ buscar_contexto search vector_pregunta index metadatos k
      = Some (join (nl ++ nl) (bloque <$> chunks)).
Proof.
  destruct (recuperar_bucle metadatos (search index vector_pregunta k) [] ∅)
    as (chunks & fs & HF & Hloop).
  exists chunks. split; [done|].
  unfold buscar_contexto, contextos_recuperados. by rewrite Hloop.
Qed.

(** C7. Whatever row of labels the search gives, the retriever does not
    raise, and its context is made of the blocks of the records found at the
    labels that lie in [0, len(metadatos)), in the order of the labels: a
    label outside that range (a [-1] among them) is passed over and adds
    nothing. There are at most as many blocks as labels asked for; and when
    the non-negative labels are distinct and all below [n], the number of rows
    of the index, there are at most [n] blocks. *)
Theorem buscar_contexto_filtra (vector_pregunta : vector) (index : Index)
    (metadatos : list registro) (k : Z) :
  ∃ chunks,
    Forall2 (λ idx chunk, metadatos !! Z.to_nat idx = Some chunk)
      (filter (λ idx, 0 ≤ idx < len metadatos)
         (search index vector_pregunta k)) chunks
    ∧ (∃ fs, contextos_recuperados search vector_pregunta index metadatos k
             = Some (bloque <$> chunks, fs))
    ∧ buscar_contexto search vector_pregunta index metadatos k
      = Some (join (nl ++ nl) (bloque <$> chunks))
    ∧ (length chunks ≤ length (search index vector_pregunta k))%nat
    ∧ ∀ n : Z,
        0 ≤ n →
        NoDup (filter (λ idx, 0 ≤ idx) (search index vector_pregunta k)) →
        (∀ idx, idx ∈ search index vector_pregunta k → idx < n) →
        len chunks ≤ n.
Proof.
  destruct (recuperar_bucle metadatos (search index vector_pregunta k) [] ∅)
    as (chunks & fs & HF & Hloop).
  exists chunks. pose proof (Forall2_length _ _ _ HF) as Hlen.
  split_and!.
  - done.
  - exists fs. exact Hloop.
  - unfold buscar_contexto, contextos_recuperados. by rewrite Hloop.
  - rewrite <- Hlen. apply length_filter.
  - intros n Hn Hnd Hbelow.
    pose proof (filter_impl_length (λ idx, 0 ≤ idx < len metadatos)
                  (λ idx, 0 ≤ idx) (search index vector_pregunta k)) as Hle.
    pose proof (NoDup_below_length _ n Hn Hnd) as Hb.
    unfold len in *. rewrite <- Hlen.
    etrans; [|apply Hb].
    + apply Nat2Z.inj_le, Hle. lia.
    + intros x [? ?]%list_elem_of_filter. split; [done|]. by apply Hbelow.
Qed.

(** C8, amended. The context the retriever returns is the join, with two
    newlines between neighbours, of one block per valid label, in the order of
    the labels; the block of a record is the line [--- Fuente: ] followed by
    its [fuente] and [ ---], a newline, and its [texto]. *)
Theorem buscar_contexto_formato (vector_pregunta : vector) (index : Index)
    (metadatos : list registro) (k : Z) :
  ∃ chunks,
    Forall2 (λ idx chunk, metadatos !! Z.to_nat idx = Some chunk)
      (filter (λ idx, 0 ≤ idx < len metadatos)
         (search index vector_pregunta k)) chunks
    ∧ buscar_contexto search vector_pregunta index metadatos k
      = Some (join [10%N; 10%N]
                ((λ chunk, lit "--- Fuente: " ++ fuente chunk ++ lit " ---"
                           ++ [10%N] ++ texto chunk) <$> chunks))
    ∧ (chunks = [] →
       buscar_contexto search vector_pregunta index metadatos k = Some [])
    ∧ (∀ c1 c2 rest, chunks = c1 :: c2 :: rest →
       ∃ resto,
         buscar_contexto search vector_pregunta index metadatos k
         = Some (lit "--- Fuente: " ++ fuente c1 ++ lit " ---" ++ [10%N]
                 ++ texto c1 ++ [10%N; 10%N] ++ resto)).
Proof.
  destruct (buscar_contexto_filtra_aux vector_pregunta index metadatos k)
    as (chunks & HF & Hb).
  exists chunks. split_and!; try done.
  - intros ->. by rewrite Hb.
  - intros c1 c2 rest ->. rewrite Hb.
    exists (join (nl ++ nl) (bloque <$> c2 :: rest)).
    simpl fmap. rewrite join_cons_cons. unfold bloque at 1.
    by rewrite <- !app_assoc.
Qed.

End Retriever.

Lemma buscar_contexto_filtra_witness :
  ∃ chunks,
    buscar_contexto Dobles.search [1; 1]
      {| Build.d := 2; Build.xb := [[0; 0]; [5; 5]; [1; 1]] |}
      [Registro 0 (lit "a.txt") (lit "uno");
       Registro 1 (lit "a.txt") (lit "dos");
       Registro 2 (lit "b.txt") (lit "tres")] 4
    = Some (join (nl ++ nl) (bloque <$> chunks))
    ∧ len chunks ≤ 3.
Proof.
  destruct (buscar_contexto_filtra Dobles.search [1; 1]
              {| Build.d := 2; Build.xb := [[0; 0]; [5; 5]; [1; 1]] |}
              [Registro 0 (lit "a.txt") (lit "uno");
               Registro 1 (lit "a.txt") (lit "dos");
               Registro 2 (lit "b.txt") (lit "tres")] 4)
    as (chunks & _ & _ & Hb & _ & Hn).
  exists chunks. split; [exact Hb|]. apply Hn.
  - lia.
  - apply (bool_decide_unpack _). vm_compute. exact I.
  - apply (proj1 (Forall_forall (λ idx, idx < 3) _)).
    apply (bool_decide_unpack _). vm_compute. exact I.
Defined.

(** C8, as stated, fails: the label of a block is [--- Fuente: ], not
    [--- Source: ]. *)
Lemma bloque_no_es_source :
  buscar_contexto Dobles.search [0]
    {| Build.d := 1; Build.xb := [[0]] |}
    [Registro 0 (lit "a.txt") (lit "hola")] 4
  = Some (lit "--- Fuente: a.txt ---" ++ nl ++ lit "hola")
  ∧ lit "--- Fuente: a.txt ---" ++ nl ++ lit "hola"
    ≠ lit "--- Source: a.txt ---" ++ nl ++ lit "hola".
Proof. split; [vm_compute; reflexivity|]. vm_compute. discriminate. Qed.

Lemma buscar_contexto_formato_witness :
  ∃ chunks,
    Forall2 (λ idx chunk,
               [Registro 0 (lit "a.txt") (lit "uno");
                Registro 1 (lit "b.txt") (lit "dos")] !! Z.to_nat idx
               = Some chunk)
      [1; 0] chunks
    ∧ buscar_contexto Dobles.search [5; 5]
        {| Build.d := 2; Build.xb := [[0; 0]; [5; 5]] |}
        [Registro 0 (lit "a.txt") (lit "uno");
         Registro 1 (lit "b.txt") (lit "dos")] 4
      = Some (join [10%N; 10%N]
                ((λ chunk, lit "--- Fuente: " ++ fuente chunk ++ lit " ---"
                           ++ [10%N] ++ texto chunk) <$> chunks)).
Proof.
  destruct (buscar_contexto_formato Dobles.search [5; 5]
              {| Build.d := 2; Build.xb := [[0; 0]; [5; 5]] |}
              [Registro 0 (lit "a.txt") (lit "uno");
               Registro 1 (lit "b.txt") (lit "dos")] 4)
    as (chunks & HF & Hb & _).
  exists chunks. split; [exact HF|exact Hb].
Defined.

Section Generator.
Variable chat_completions_create : peticion → excepcion + list str.

(** C9. Whatever the completion service does, the generator returns a string
    and raises nothing. When the call raises [e], the string is the fixed
    marker followed by the text of [e], so it begins with the marker, which
    itself begins with the cross mark and the word ERROR; the same holds when
    the response has no choice to read. When the call returns a response, the
    string is the content of its first choice, unchanged. *)
Theorem generar_respuesta_marca (pregunta contexto : str) :
  (∀ e, chat_completions_create (peticion_chat pregunta contexto) = inl e →
     generar_respuesta chat_completions_create pregunta contexto
       = MARCA_ERROR ++ str_e e
     ∧ MARCA_ERROR `prefix_of`
         generar_respuesta chat_completions_create pregunta contexto)
  ∧ (∀ c rest,
       chat_completions_create (peticion_chat pregunta contexto)
         = inr (c :: rest) →
       generar_respuesta chat_completions_create pregunta contexto = c)
  ∧ (chat_completions_create (peticion_chat pregunta contexto) = inr [] →
     MARCA_ERROR `prefix_of`
       generar_respuesta chat_completions_create pregunta contexto)
  ∧ take 7 MARCA_ERROR = 10060%N :: lit " ERROR".
Proof.
  unfold generar_respuesta, intento. split_and!.
  - intros e ->. split; [done|]. by eexists.
  - by intros c rest ->.
  - intros ->. by eexists.
  - reflexivity.
Qed.

End Generator.

Lemma generar_respuesta_marca_witness :
  (generar_respuesta (λ _, inl (Excepcion (lit "Connection error.")))
     (lit "hola") (lit "ctx")
   = MARCA_ERROR ++ lit "Connection error.")
  ∧ generar_respuesta (λ _, inr [lit "respuesta"]) (lit "hola") (lit "ctx")
    = lit "respuesta".
Proof.
  split.
  - apply (proj1 (generar_respuesta_marca
                    (λ _, inl (Excepcion (lit "Connection error.")))
                    (lit "hola") (lit "ctx"))
             (Excepcion (lit "Connection error."))).
    reflexivity.
  - apply (proj1 (proj2 (generar_respuesta_marca
                           (λ _, inr [lit "respuesta"])
                           (lit "hola") (lit "ctx")))
             (lit "respuesta") []).
    reflexivity.
Defined.

End Query.

(** ** More on the chunker: where the cuts are, how many, how long *)

Module ChunkerMore.
Import Py Build PyFacts Chunker.

Lemma slice_length_clip {A} (s : list A) (a b : Z) :
  0 ≤ a → a ≤ len s → a ≤ b → len (slice s a b) = Z.min b (len s) - a.
Proof.
  intros. rewrite slice_nonneg by lia. unfold len in *.
  rewrite length_take, length_drop. lia.
Qed.

(** With chunks that may not be empty and an overlap that is not negative,
    the loop stops on a cut that reaches the end of the text. *)
Lemma cortes_bucle_ultimo fuel n tamano overlap inicio k a b :
  1 ≤ tamano → 0 ≤ overlap →
  (Z.to_nat (n - inicio) < fuel)%nat →
  cortes_bucle fuel n tamano overlap inicio !! k = Some (a, b) →
  cortes_bucle fuel n tamano overlap inicio !! S k = None →
  n ≤ b.
Proof.
  intros HL HO. revert inicio k.
  induction fuel as [|fuel IH]; intros inicio k Hf; [lia|]. simpl.
  destruct (Z.ltb_spec inicio n) as [Hlt|]; [|done].
  destruct (Z.geb_spec (inicio + tamano) n) as [Hfin|Hfin].
  - destruct k as [|k]; simpl; [|done]. intros [= <- <-] _. lia.
  - destruct k as [|k]; simpl.
    + intros _ Hnone. exfalso.
      destruct fuel as [|fuel]; [lia|]. simpl in Hnone.
      destruct (Z.ltb_spec (Z.max (inicio + tamano - overlap) (inicio + 1)) n);
        [done|lia].
    + apply IH. lia.
Qed.

Lemma cortes_ultimo texto tamano overlap k a b :
  1 ≤ tamano → 0 ≤ overlap →
  cortes texto tamano overlap !! k = Some (a, b) →
  cortes texto tamano overlap !! S k = None →
  len texto ≤ b.
Proof.
  intros. eapply cortes_bucle_ultimo; try done. unfold len. lia.
Qed.

(** The cut number [k] starts at [k] times the step. *)
Lemma cortes_regular texto tamano overlap k a b :
  cortes texto tamano overlap !! k = Some (a, b) →
  a = Z.of_nat k * Z.max (tamano - overlap) 1 ∧ b = a + tamano
  ∧ 0 ≤ a ∧ a < len texto.
Proof.
  revert a b. induction k as [|k IH]; intros a b Hk.
  - unfold cortes in Hk.
    destruct (cortes_bucle_lookup _ _ _ _ _ _ _ _ Hk) as (? & ? & ? & H0 & _).
    specialize (H0 eq_refl). lia.
  - destruct (lookup_lt_is_Some_2 (cortes texto tamano overlap) k)
      as [[a0 b0] Hk0].
    { apply lookup_lt_Some in Hk. lia. }
    destruct (IH _ _ Hk0) as (? & ? & ? & ?).
    destruct (cortes_consecutivos _ _ _ _ _ _ _ _ Hk0 Hk)
      as (? & ? & ? & ? & ? & ?). lia.
Qed.

Lemma cortes_no_vacio texto tamano overlap :
  texto ≠ [] → is_Some (cortes texto tamano overlap !! 0%nat).
Proof.
  intros Hne. unfold cortes. simpl.
  destruct (Z.ltb_spec 0 (len texto)) as [|Hle]; [by eexists|].
  destruct texto; [done|]. unfold len in Hle. simpl in Hle. lia.
Qed.

(** X1. For every text and parameters, chunk number [k] of the chunker is
    the slice of the text that starts at [k] times the step
    [max(tamano - overlap, 1)] and is cut [tamano] further; the start lies
    inside the text. With the parameters of the script, chunk [k] is
    [texto[800k : 800k + 1000]]. *)
Theorem dividir_texto_paso (texto : str) (tamano overlap : Z)
    (k : nat) (c : str) :
  dividir_texto texto tamano overlap !! k = Some c →
  let a := Z.of_nat k * Z.max (tamano - overlap) 1 in
  c = slice texto a (a + tamano) ∧ a < len texto.
Proof.
  intros (a & b & Hk & ->)%dividir_texto_lookup.
  destruct (cortes_regular _ _ _ _ _ _ Hk) as (-> & -> & _ & ?). done.
Qed.

Lemma dividir_texto_paso_witness :
  lit "ghij"
  = slice (lit "abcdefghij") (Z.of_nat 2 * Z.max (4 - 1) 1)
      (Z.of_nat 2 * Z.max (4 - 1) 1 + 4)
  ∧ Z.of_nat 2 * Z.max (4 - 1) 1 < len (lit "abcdefghij").
Proof.
  apply (dividir_texto_paso (lit "abcdefghij") 4 1 2 (lit "ghij")).
  reflexivity.
Defined.

(** X2. For [tamano >= 1] and [overlap >= 0] the number of chunks is: none
    for the empty text, one for a text of at most [tamano] characters, and
    for a longer text one more than [len(texto) - tamano] divided by the step
    [max(tamano - overlap, 1)], rounded up. *)
Theorem dividir_texto_cuantos (texto : str) (tamano overlap : Z) :
  1 ≤ tamano → 0 ≤ overlap →
  let n := len texto in
  let paso := Z.max (tamano - overlap) 1 in
  len (dividir_texto texto tamano overlap)
  = if n =? 0 then 0
    else if n <=? tamano then 1
    else (n - tamano + paso - 1) / paso + 1.
Proof.
  intros HL HO n paso.
  rewrite dividir_texto_cortes. unfold len at 1. rewrite length_fmap.
  fold (len (cortes texto tamano overlap)).
  destruct (Z.eqb_spec n 0) as [Hn0|Hn0].
  - destruct texto; [done|]. unfold n, len in Hn0. simpl in Hn0. lia.
  - assert (Hne : texto ≠ []) by (intros ->; by apply Hn0).
    destruct (cortes_no_vacio texto tamano overlap Hne) as [ab0 H0].
    pose proof (lookup_lt_Some _ _ _ H0) as Hlen0.
    set (m := length (cortes texto tamano overlap)) in *.
    destruct (lookup_lt_is_Some_2 (cortes texto tamano overlap) (m - 1))
      as [[a b] Hlast]; [lia|].
    assert (Hnone : cortes texto tamano overlap !! S (m - 1) = None)
      by (apply lookup_ge_None; lia).
    pose proof (cortes_ultimo _ _ _ _ _ _ HL HO Hlast Hnone) as Hb.
    destruct (cortes_regular _ _ _ _ _ _ Hlast) as (Ha & Hb' & Ha0 & Han).
    fold paso in Ha. fold n in Hb.
    assert (Hprev : (2 ≤ m)%nat →
              (Z.of_nat m - 2) * paso + tamano < n).
    { intros Hm2.
      destruct (lookup_lt_is_Some_2 (cortes texto tamano overlap) (m - 2))
        as [[a1 b1] Hp]; [lia|].
      destruct (cortes_regular _ _ _ _ _ _ Hp) as (Ha1 & Hb1 & _).
      replace (m - 1)%nat with (S (m - 2)) in Hlast by lia.
      destruct (cortes_consecutivos _ _ _ _ _ _ _ _ Hp Hlast)
        as (_ & _ & Hlt & _).
      fold paso in Ha1. subst a1 b1.
      replace (Z.of_nat (m - 2)) with (Z.of_nat m - 2) in Hlt by lia.
      exact Hlt. }
    assert (Hpaso : 1 ≤ paso) by (unfold paso; lia).
    unfold len. fold m.
    replace (Z.of_nat (m - 1)) with (Z.of_nat m - 1) in Ha by lia.
    destruct (Z.leb_spec n tamano) as [Hshort|Hlong].
    + destruct (decide (2 ≤ m)%nat) as [Hm2|]; [|lia].
      specialize (Hprev Hm2). nia.
    + assert (Hm2 : (2 ≤ m)%nat).
      { destruct (decide (2 ≤ m)%nat); [done|].
        assert (m = 1%nat) by lia. subst a b. lia. }
      specialize (Hprev Hm2).
      assert ((n - tamano + paso - 1) / paso = Z.of_nat m - 1); [|lia].
      symmetry. apply (Z.div_unique_pos _ _ _
        (n - tamano + paso - 1 - (Z.of_nat m - 1) * paso)); nia.
Qed.

Lemma dividir_texto_cuantos_witness :
  1 ≤ 1000 ∧ 0 ≤ 200
  ∧ len (dividir_texto (replicate 2000 65%N) 1000 200) = 3.
Proof.
  split; [lia|]. split; [lia|].
  rewrite (dividir_texto_cuantos (replicate 2000 65%N) 1000 200) by lia.
  reflexivity.
Defined.

(** X3. For [tamano >= 1] no chunk is empty and none is longer than
    [tamano]; a chunk that is followed by another one is exactly [tamano]
    long, so only the last chunk of a text can be shorter. *)
Theorem dividir_texto_longitudes (texto : str) (tamano overlap : Z)
    (k : nat) (c : str) :
  1 ≤ tamano →
  dividir_texto texto tamano overlap !! k = Some c →
  1 ≤ len c ∧ len c ≤ tamano
  ∧ (is_Some (dividir_texto texto tamano overlap !! S k) → len c = tamano).
Proof.
  intros HL (a & b & Hk & ->)%dividir_texto_lookup.
  destruct (cortes_regular _ _ _ _ _ _ Hk) as (_ & -> & Ha0 & Han).
  rewrite slice_length_clip by lia. split_and!; try lia.
  intros [c' (a' & b' & Hk' & _)%dividir_texto_lookup].
  destruct (cortes_consecutivos _ _ _ _ _ _ _ _ Hk Hk') as (_ & _ & ? & _).
  lia.
Qed.

Lemma dividir_texto_longitudes_witness :
  1 ≤ 4 ∧ 1 ≤ len (lit "ij") ∧ len (lit "ij") ≤ 4.
Proof.
  split; [lia|].
  destruct (dividir_texto_longitudes (lit "abcdefghij") 4 0 2 (lit "ij")
              ltac:(lia) eq_refl) as (H1 & H2 & _).
  exact (conj H1 H2).
Defined.

(** X4. A text that is not empty and not longer than [tamano] comes back as
    one chunk, the text itself, whatever the overlap. *)
Theorem dividir_texto_corto (texto : str) (tamano overlap : Z) :
  texto ≠ [] → len texto ≤ tamano →
  dividir_texto texto tamano overlap = [texto].
Proof.
  intros Hne Hle. unfold dividir_texto. simpl.
  assert (0 < len texto).
  { destruct texto; [done|]. unfold len. simpl. lia. }
  destruct (Z.ltb_spec 0 (len texto)); [|lia].
  destruct (Z.geb_spec (0 + tamano) (len texto)); [|lia]. simpl.
  rewrite slice_nonneg by lia. rewrite drop_0, take_ge; [done|].
  unfold len in *. lia.
Qed.

Lemma dividir_texto_corto_witness :
  lit "hola" ≠ [] ∧ len (lit "hola") ≤ 1000
  ∧ dividir_texto (lit "hola") 1000 200 = [lit "hola"].
Proof.
  assert (H1 : lit "hola" ≠ []) by (intros H; discriminate H).
  assert (H2 : len (lit "hola") ≤ 1000) by (vm_compute; discriminate).
  exact (conj H1 (conj H2 (dividir_texto_corto (lit "hola") 1000 200 H1 H2))).
Defined.

(** X5. For [tamano >= 1] and [overlap >= 0] the first chunk is the first
    [tamano] characters of the text, and the last chunk is the text from the
    start of its cut to the end: nothing at the end of the text is left
    out. *)
Theorem dividir_texto_extremos (texto : str) (tamano overlap : Z) :
  1 ≤ tamano → 0 ≤ overlap →
  (∀ c, head (dividir_texto texto tamano overlap) = Some c →
     c = take (Z.to_nat tamano) texto)
  ∧ (∀ c, last (dividir_texto texto tamano overlap) = Some c →
       c `suffix_of` texto ∧ c ≠ []).
Proof.
  intros HL HO. split.
  - intros c Hc. rewrite head_lookup in Hc.
    apply dividir_texto_lookup in Hc as (a & b & Hk & ->).
    destruct (cortes_regular _ _ _ _ _ _ Hk) as (-> & -> & _). simpl.
    rewrite slice_nonneg by lia. rewrite drop_0. f_equal. lia.
  - intros c Hc. rewrite last_lookup in Hc.
    pose proof Hc as (a & b & Hk & ->)%dividir_texto_lookup.
    destruct (cortes_regular _ _ _ _ _ _ Hk) as (_ & -> & Ha0 & Han).
    assert (Hnone : cortes texto tamano overlap
                      !! S (pred (length (dividir_texto texto tamano overlap)))
                    = None).
    { apply lookup_ge_None. rewrite dividir_texto_cortes, length_fmap.
      apply lookup_lt_Some in Hk. lia. }
    pose proof (cortes_ultimo _ _ _ _ _ _ HL HO Hk Hnone) as Hb.
    rewrite slice_nonneg by lia. rewrite take_ge.
    + split; [apply suffix_drop|].
      intros Hnil. apply (f_equal length) in Hnil.
      rewrite length_drop in Hnil. unfold len in *. simpl in Hnil. lia.
    + rewrite length_drop. unfold len in *. lia.
Qed.

Lemma dividir_texto_extremos_witness :
  1 ≤ 4 ∧ 0 ≤ 1 ∧ lit "ghij" `suffix_of` lit "abcdefghij".
Proof.
  split; [lia|]. split; [lia|].
  apply (proj2 (dividir_texto_extremos (lit "abcdefghij") 4 1
                  ltac:(lia) ltac:(lia)) (lit "ghij")).
  reflexivity.
Defined.

End ChunkerMore.

(** ** More on the ingestion: numbering, sources, batches, aborted runs *)

Module IngestionMore.
Import Py Build Origen PyFacts Chunker Ingestion.

Lemma enumerate_lookup {A} (l : list A) (i : nat) (x : A) :
  (i, x) ∈ enumerate l ↔ l !! i = Some x.
Proof.
  unfold enumerate. rewrite list_elem_of_lookup. split.
  - intros [j Hj]. apply lookup_zip_with_Some in Hj
      as (i' & x' & [= -> ->] & Hs & Hl).
    apply lookup_seq in Hs as [-> _]. done.
  - intros Hl. exists i. apply lookup_zip_with_Some. exists i, x.
    split_and!; [done| |done].
    apply lookup_seq. split; [done|]. by apply lookup_lt_Some in Hl.
Qed.

Lemma dividir_texto_no_vacio (t : str) (tamano overlap : Z) :
  t ≠ [] → dividir_texto t tamano overlap ≠ [].
Proof.
  intros Hne Hnil.
  destruct (ChunkerMore.cortes_no_vacio t tamano overlap Hne) as [ab Hab].
  rewrite dividir_texto_cortes in Hnil.
  apply fmap_nil_inv in Hnil. by rewrite Hnil in Hab.
Qed.

Lemma strip_no_vacio (t : str) : strip t ≠ [] → t ≠ [].
Proof. intros H ->. by apply H. Qed.

(** The inner loop, when the document has a source. *)
Lemma agregar_chunks_Some fuentes i f chunks todos metas :
  fuentes !! i = Some f →
  ∃ nuevos,
    for_ (agregar_chunk fuentes i) chunks (todos, metas)
      = Some (todos ++ chunks, metas ++ nuevos)
    ∧ Forall2 (λ raw r, fuente r = f ∧ texto r = strip raw) chunks nuevos.
Proof.
  intros Hf. revert todos metas.
  induction chunks as [|c chunks IH]; intros todos metas.
  - exists []. simpl. by rewrite !app_nil_r.
  - simpl. rewrite Hf. simpl.
    destruct (IH (todos ++ [c])
                (metas ++ [Registro (len (todos ++ [c]) - 1) f (strip c)]))
      as (nuevos & -> & HF).
    eexists (_ :: nuevos). rewrite <- !app_assoc. simpl. split; [done|].
    by constructor.
Qed.

Lemma Forall2_elem_of_l {A B} (P : A → B → Prop) (l0 l : list A)
    (k : list B) :
  l ⊆ l0 → Forall2 P l k → Forall2 (λ x y, x ∈ l0 ∧ P x y) l k.
Proof.
  intros Hsub HF. induction HF as [|x y l k HP HF IH]; [constructor|].
  constructor.
  - split; [|done]. apply Hsub. left.
  - apply IH. intros z Hz. apply Hsub. by right.
Qed.

Lemma documentos_Some textos fuentes its st :
  (∀ i t, (i, t) ∈ its → textos !! i = Some t ∧ is_Some (fuentes !! i)) →
  Forall2 (de_un_documento textos fuentes) st.1 st.2 →
  ∃ st', for_ (procesar_documento fuentes) its st = Some st'
         ∧ Forall2 (de_un_documento textos fuentes) st'.1 st'.2.
Proof.
  revert st. induction its as [|[i t] its IH]; intros [todos metas] Hits Hst.
  - by exists (todos, metas).
  - cbn [for_ procesar_documento].
    destruct (Hits i t) as [Ht [f Hf]]; [left|].
    assert (Hrest : ∀ i' t', (i', t') ∈ its →
              textos !! i' = Some t' ∧ is_Some (fuentes !! i')).
    { intros i' t' Hin. apply Hits. by right. }
    case_bool_decide.
    + simpl. by apply IH.
    + destruct (agregar_chunks_Some fuentes i f (dividir_texto t 1000 200)
                  todos metas Hf) as (nuevos & -> & HF).
      simpl. apply IH; [done|]. simpl in *.
      apply Forall2_app; [done|].
      apply (Forall2_elem_of_l _ (dividir_texto t 1000 200)) in HF; [|done].
      eapply Forall2_impl; [exact HF|]. simpl.
      intros raw r (Hin & Hr1 & Hr2). exists i, t. rewrite Hr1. done.
Qed.

Lemma documentos_None fuentes its st i t :
  (i, t) ∈ its → strip t ≠ [] → fuentes !! i = None →
  for_ (procesar_documento fuentes) its st = None.
Proof.
  intros Hin Hnb Hnone. revert st.
  induction its as [|it its IH]; intros st; [by apply elem_of_nil in Hin|].
  apply elem_of_cons in Hin as [<-|Hin].
  - cbn [for_ procesar_documento].
    rewrite bool_decide_eq_false_2 by done.
    pose proof (dividir_texto_no_vacio t 1000 200 (strip_no_vacio t Hnb)).
    destruct (dividir_texto t 1000 200) as [|c cs]; [done|].
    destruct st as [todos metas]. simpl. by rewrite Hnone.
  - cbn [for_]. destruct (procesar_documento fuentes st it); simpl; [|done].
    by apply IH.
Qed.

(** X6. After the loop over the documents there are as many records as
    chunks, and the [chunk_id] of the record at position [i] is [i]: the
    numbers run from 0 without gap or repetition, across all documents. *)
Theorem chunk_id_es_posicion (textos fuentes : list str)
    (todos : list str) (metadatos : list registro) :
  chunks_y_metadatos textos fuentes = Some (todos, metadatos) →
  length metadatos = length todos
  ∧ (∀ i r, metadatos !! i = Some r → chunk_id r = Z.of_nat i)
  ∧ NoDup (chunk_id <$> metadatos).
Proof.
  intros (_ & Hid & Hlen)%chunks_y_metadatos_alineados. split_and!.
  - done.
  - intros i r Hr.
    assert (H : (chunk_id <$> metadatos) !! i = Some (chunk_id r))
      by (by rewrite list_lookup_fmap, Hr).
    rewrite Hid, list_lookup_fmap in H.
    apply lookup_lt_Some in Hr.
    rewrite lookup_seq_lt in H by lia. by injection H.
  - rewrite Hid. apply NoDup_fmap; [apply _|]. apply NoDup_seq.
Qed.

Lemma chunk_id_es_posicion_witness :
  ∃ todos metadatos,
    chunks_y_metadatos [lit "uno"; lit "  "; lit "dos"]
      [lit "a.txt"; lit "b.txt"; lit "c.txt"] = Some (todos, metadatos)
    ∧ length metadatos = length todos
    ∧ NoDup (chunk_id <$> metadatos).
Proof.
  eexists _, _.
  assert (H : chunks_y_metadatos [lit "uno"; lit "  "; lit "dos"]
                [lit "a.txt"; lit "b.txt"; lit "c.txt"]
              = Some ([lit "uno"; lit "dos"],
                      [Registro 0 (lit "a.txt") (lit "uno");
                       Registro 1 (lit "c.txt") (lit "dos")]))
    by reflexivity.
  split; [exact H|].
  destruct (chunk_id_es_posicion _ _ _ _ H) as (H1 & _ & H3).
  exact (conj H1 H3).
Defined.

(** With enough sources the loop over the documents raises nothing, and it
    keeps every chunk next to a record of its document. *)
Lemma chunks_y_metadatos_Some (textos fuentes : list str) :
  (length textos ≤ length fuentes)%nat →
  ∃ todos metadatos,
    chunks_y_metadatos textos fuentes = Some (todos, metadatos)
    ∧ Forall2 (de_un_documento textos fuentes) todos metadatos.
Proof.
  intros Hlen.
  destruct (documentos_Some textos fuentes (enumerate textos) ([], []))
    as ([todos metas] & Hfor & HF).
  - intros i t Hit%enumerate_lookup. split; [done|].
    apply lookup_lt_is_Some_2. apply lookup_lt_Some in Hit. lia.
  - constructor.
  - by exists todos, metas.
Qed.

(** X7. When [fuentes] is at least as long as [textos], as the loader leaves
    them, the loop over the documents raises nothing, and every chunk with
    the record next to it comes from one document: the chunk is one of the
    chunks of its text, the record holds the source found at the position of
    that document and the trimmed text of the chunk. *)
Theorem registros_con_fuente (textos fuentes : list str) :
  (length textos ≤ length fuentes)%nat →
  ∃ todos metadatos,
    chunks_y_metadatos textos fuentes = Some (todos, metadatos)
    ∧ Forall2 (de_un_documento textos fuentes) todos metadatos.
Proof. apply chunks_y_metadatos_Some. Qed.

Lemma registros_con_fuente_witness :
  (length [lit "uno"; lit "dos"] ≤ length [lit "a.txt"; lit "b.txt"])%nat
  ∧ ∃ todos metadatos,
      chunks_y_metadatos [lit "uno"; lit "dos"] [lit "a.txt"; lit "b.txt"]
        = Some (todos, metadatos)
      ∧ Forall2 (de_un_documento [lit "uno"; lit "dos"]
                   [lit "a.txt"; lit "b.txt"]) todos metadatos.
Proof.
  assert (H : (length [lit "uno"; lit "dos"]
               ≤ length [lit "a.txt"; lit "b.txt"])%nat) by (simpl; lia).
  exact (conj H (registros_con_fuente _ _ H)).
Defined.

(** X8. When a text that is not blank stands at a position where [fuentes]
    has no entry, the loop over the documents stops on the [IndexError] of
    [fuentes[i]]: nothing is returned, whatever the other documents are. *)
Theorem documento_sin_fuente (textos fuentes : list str) (i : nat) (t : str) :
  textos !! i = Some t → strip t ≠ [] → fuentes !! i = None →
  chunks_y_metadatos textos fuentes = None.
Proof.
  intros Ht Hnb Hnone. unfold chunks_y_metadatos.
  apply (documentos_None fuentes _ _ i t); [|done..].
  by apply enumerate_lookup.
Qed.

Lemma documento_sin_fuente_witness :
  chunks_y_metadatos [lit "uno"; lit "dos"] [lit "a.txt"] = None.
Proof.
  apply (documento_sin_fuente _ _ 1 (lit "dos")); [reflexivity| |reflexivity].
  vm_compute. discriminate.
Defined.

(** X9. The batches sent to the embedding service cut the list of chunks
    into consecutive pieces: joined in order they give the list back, there
    are [ceil(len / 32)] of them, none is empty, none holds more than 32
    texts, and each one that is followed by another holds exactly 32. *)
Theorem lotes_particion (todos : list str) :
  concat (lotes todos) = todos
  ∧ length (lotes todos) = ((length todos + 31) / 32)%nat
  ∧ (∀ j b, lotes todos !! j = Some b →
       b = take 32 (drop (j * 32) todos)
       ∧ (1 ≤ length b ≤ 32)%nat
       ∧ (is_Some (lotes todos !! S j) → length b = 32%nat)).
Proof.
  split; [apply lotes_concat|].
  rewrite lotes_take_drop. rewrite length_fmap, length_seq.
  replace (length todos + 32 - 1)%nat with (length todos + 31)%nat by lia.
  split; [done|].
  pose proof (Nat.div_mod_eq (length todos + 31) 32) as Hdm.
  pose proof (Nat.mod_upper_bound (length todos + 31) 32 ltac:(lia)) as Hm.
  intros j b Hb. rewrite list_lookup_fmap in Hb.
  destruct (seq 0 ((length todos + 31) / 32) !! j) as [j'|] eqn:Hj;
    [|done].
  apply lookup_seq in Hj as [-> Hj]. simpl in Hb. injection Hb as <-.
  set (q := ((length todos + 31) / 32)%nat) in *.
  split; [done|]. rewrite length_take, length_drop. split; [lia|].
  intros [b' Hb']. rewrite list_lookup_fmap in Hb'.
  destruct (seq 0 q !! S j) as [j'|] eqn:Hj'; [|done].
  apply lookup_seq in Hj' as [_ Hj']. lia.
Qed.

End IngestionMore.

(** ** More on a whole run: what is written, and when nothing is *)

Module BuildMore.
Import Py Build PyFacts Ingestion IngestionMore.

Section Servicio.
Context {coord coord32 api : Type}.
Variable float32 : coord → coord32.
Variable embeddings_create :
  api → str → list str → api * (excepcion + list (list coord)).

Lemma np_array_homogeneo (rows : list (list coord))
    (a : list (list coord32)) :
  np_array float32 rows = Some a → Forall (λ r, len r = shape1 a) a.
Proof.
  unfold np_array. destruct rows as [|r rows]; [intros [= <-]; constructor|].
  destruct (forallb _ _) eqn:Hall; [|done]. intros [= <-].
  apply Is_true_true_2, forallb_True in Hall.
  change (Forall (λ r0 : list coord32, len r0 = len (float32 <$> r))
            ((λ r : list coord, float32 <$> r) <$> (r :: rows))).
  rewrite Forall_fmap. eapply Forall_impl; [exact Hall|]. simpl.
  intros r' Hr'%bool_decide_unpack. unfold len.
  by rewrite !length_fmap, Hr'.
Qed.

(** The shape of what a run writes. *)
Lemma build_Some_forma cliente textos fuentes index metadatos :
  build float32 embeddings_create cliente textos fuentes
    = Some (index, metadatos) →
  textos ≠ [] ∧ d index = shape1 (xb index)
  ∧ Forall (λ r, len r = shape1 (xb index)) (xb index).
Proof.
  unfold build. case_bool_decide; [done|].
  destruct (chunks_y_metadatos textos fuentes) as [[todos metas]|]; [|done].
  simpl. destruct (vectorizar _ cliente todos) as [c' emb].
  destruct (np_array float32 emb) as [a|] eqn:Ea; simpl; [|done].
  pose proof (np_array_homogeneo _ _ Ea) as Hh.
  destruct (Z.eqb_spec (len a) 0); [done|].
  intros [= <- <-]. simpl. done.
Qed.

(** With a service that, when it answers, gives for each input text the
    vector [embed1] of that text, the loop ends with the vectors of the texts
    of the first batches. *)
Lemma vectorizar_bucle_prefijo (embed1 : str → list coord) batches :
  (∀ c model input,
     (embeddings_create c model input).2 = inr (embed1 <$> input)
     ∨ ∃ e, (embeddings_create c model input).2 = inl e) →
  ∀ cliente acc, ∃ j,
    (vectorizar_bucle embeddings_create batches cliente acc).2
    = acc ++ (embed1 <$> concat (take j batches)).
Proof.
  intros Hsvc. induction batches as [|b batches IH]; intros cliente acc.
  - exists 0%nat. simpl. by rewrite app_nil_r.
  - simpl. destruct (Hsvc cliente NOMBRE_MODELO_NOMIC b) as [Hok|[e He]];
      destruct (embeddings_create cliente NOMBRE_MODELO_NOMIC b) as [c' r];
      simpl in *; subst r.
    + destruct (IH c' (acc ++ (embed1 <$> b))) as [j ->].
      exists (S j). simpl. by rewrite fmap_app, <- app_assoc.
    + exists 0%nat. simpl. by rewrite app_nil_r.
Qed.

(** X10. In a run that writes the two files, the index is not empty, its
    dimension is the length of its first row, and every row has that length;
    the list of documents was not empty. *)
Theorem build_indice_bien_formado cliente textos fuentes index metadatos :
  build float32 embeddings_create cliente textos fuentes
    = Some (index, metadatos) →
  textos ≠ [] ∧ 1 ≤ ntotal index
  ∧ Forall (λ row, len row = d index) (xb index).
Proof.
  intros H. pose proof (build_Some _ _ _ _ _ _ _ H) as (_ & _ & _ & Hne).
  destruct (build_Some_forma _ _ _ _ _ H) as (Ht & -> & Hrows).
  split_and!; [done| |done].
  unfold ntotal, len. destruct (xb index); [done|]. simpl. lia.
Qed.

(** X11. When the service gives one vector per input text and never raises,
    a run that writes the two files writes as many rows as records, so a
    position holds a row exactly when it holds a record. *)
Theorem build_alineado_sin_fallos cliente textos fuentes index metadatos :
  (∀ c model input, ∃ data,
     (embeddings_create c model input).2 = inr data
     ∧ length data = length input) →
  build float32 embeddings_create cliente textos fuentes
    = Some (index, metadatos) →
  ntotal index = len metadatos
  ∧ ∀ i, is_Some (xb index !! i) ↔ is_Some (metadatos !! i).
Proof.
  intros Hsvc (todos & Hcm & Hxb & _)%build_Some.
  apply chunks_y_metadatos_alineados in Hcm as (_ & _ & Hlen).
  assert (Hl : length (xb index) = length metadatos).
  { unfold vectorizar in Hxb.
    rewrite Hxb, length_fmap, vectorizar_bucle_contrato, lotes_concat
      by done.
    simpl. lia. }
  split; [unfold ntotal, len; lia|].
  intros i. rewrite !lookup_lt_is_Some. lia.
Qed.

(** X12. When the service, each time it answers, gives for each input text
    the vector [embed1] of that text, and may raise at any call, a run that
    writes the two files writes at most as many rows as records, and every
    row it writes is aligned: row [i] is the vector of chunk [i] rounded to
    single precision, and record [i] holds the number [i] and the trimmed
    text of that chunk. The records after the last row have no row. *)
Theorem build_fallo_parcial_prefijo (embed1 : str → list coord)
    cliente textos fuentes index metadatos :
  (∀ c model input,
     (embeddings_create c model input).2 = inr (embed1 <$> input)
     ∨ ∃ e, (embeddings_create c model input).2 = inl e) →
  build float32 embeddings_create cliente textos fuentes
    = Some (index, metadatos) →
  ∃ todos,
    chunks_y_metadatos textos fuentes = Some (todos, metadatos)
    ∧ xb index
      = (λ raw, float32 <$> embed1 raw) <$> take (length (xb index)) todos
    ∧ ntotal index ≤ len metadatos
    ∧ ∀ i row, xb index !! i = Some row →
        ∃ raw r, todos !! i = Some raw ∧ metadatos !! i = Some r
                 ∧ row = float32 <$> embed1 raw ∧ texto r = strip raw
                 ∧ chunk_id r = Z.of_nat i.
Proof.
  intros Hsvc (todos & Hcm & Hxb & _)%build_Some.
  exists todos. split; [done|].
  pose proof (chunks_y_metadatos_alineados _ _ _ _ Hcm) as (Ht & Hid & Hlen).
  destruct (vectorizar_bucle_prefijo embed1 (lotes todos) Hsvc cliente [])
    as [j Hj].
  unfold vectorizar in Hxb. rewrite Hj in Hxb. simpl in Hxb.
  rewrite <- list_fmap_compose in Hxb.
  change ((λ r : list coord, float32 <$> r) ∘ embed1)
    with (λ raw, float32 <$> embed1 raw) in Hxb.
  assert (Hpre : concat (take j (lotes todos)) `prefix_of` todos).
  { exists (concat (drop j (lotes todos))).
    by rewrite <- concat_app, take_drop, lotes_concat. }
  destruct Hpre as [resto Hresto].
  remember (concat (take j (lotes todos))) as p eqn:Heqp. clear Heqp Hj.
  assert (Hp : p = take (length (xb index)) todos).
  { rewrite Hxb, length_fmap, Hresto. by rewrite take_app_length. }
  assert (Hle : (length (xb index) ≤ length todos)%nat).
  { rewrite Hresto, length_app, Hxb, length_fmap. lia. }
  rewrite Hp in Hxb.
  split_and!.
  - done.
  - unfold ntotal, len. lia.
  - intros i row Hrow. pose proof (lookup_lt_Some _ _ _ Hrow) as Hi.
    rewrite Hxb, list_lookup_fmap, lookup_take in Hrow.
    case_decide; [|done].
    destruct (todos !! i) as [raw|] eqn:Hraw; [|done].
    destruct (lookup_lt_is_Some_2 metadatos i) as [r Hr]; [lia|].
    exists raw, r. split_and!; try done.
    + by injection Hrow.
    + assert (H1 : (texto <$> metadatos) !! i = Some (texto r))
        by (by rewrite list_lookup_fmap, Hr).
      rewrite Ht, list_lookup_fmap, Hraw in H1. by injection H1.
    + assert (H1 : (chunk_id <$> metadatos) !! i = Some (chunk_id r))
        by (by rewrite list_lookup_fmap, Hr).
      rewrite Hid, list_lookup_fmap, lookup_seq_lt in H1 by lia.
      by injection H1.
Qed.

Lemma documentos_en_blanco fuentes its st :
  Forall (λ it : nat * str, Forall (λ c, isspace c = true) it.2) its →
  for_ (procesar_documento fuentes) its st = Some st.
Proof.
  induction 1 as [|[i t] its Hb _ IH]; [done|].
  cbn [for_ procesar_documento].
  rewrite (strip_blank t Hb), bool_decide_eq_true_2 by done. exact IH.
Qed.

(** X13. Nothing is written in three cases: when there is no document; when
    every document is empty or whitespace only, whatever the service would
    answer; and when the service raises at the calls made from the initial
    state, so at the first batch. *)
Theorem build_sin_artefactos cliente textos fuentes :
  (textos = [] →
   build float32 embeddings_create cliente textos fuentes = None)
  ∧ (Forall (λ t, Forall (λ c, isspace c = true) t) textos →
     build float32 embeddings_create cliente textos fuentes = None)
  ∧ ((∀ input, ∃ e,
        (embeddings_create cliente NOMBRE_MODELO_NOMIC input).2 = inl e) →
     build float32 embeddings_create cliente textos fuentes = None).
Proof.
  split_and!.
  - intros ->. done.
  - intros Hblank. unfold build. case_bool_decide; [done|].
    unfold chunks_y_metadatos. rewrite documentos_en_blanco; [done|].
    apply Forall_forall. intros [i t] Hit%enumerate_lookup. simpl.
    by eapply Forall_lookup_1 in Hblank.
  - intros Hdown. unfold build. case_bool_decide; [done|].
    destruct (chunks_y_metadatos textos fuentes) as [[todos metas]|]; [|done].
    simpl. unfold vectorizar.
    destruct (lotes todos) as [|b bs]; [done|]. simpl.
    destruct (Hdown b) as [e He].
    destruct (embeddings_create cliente NOMBRE_MODELO_NOMIC b) as [c' r].
    simpl in He. by subst r.
Qed.

End Servicio.

Lemma build_indice_bien_formado_witness :
  ∃ index metadatos,
    build Dobles.float32 (Dobles.servicio 5) 0%nat [lit "uno"; lit "dos"]
      [lit "a.txt"; lit "b.txt"] = Some (index, metadatos)
    ∧ 1 ≤ ntotal index ∧ Forall (λ row, len row = d index) (xb index).
Proof.
  eexists _, _.
  assert (H : build Dobles.float32 (Dobles.servicio 5) 0%nat
                [lit "uno"; lit "dos"] [lit "a.txt"; lit "b.txt"]
              = Some ({| d := 2; xb := [[3; 3]; [3; 3]] |},
                      [Registro 0 (lit "a.txt") (lit "uno");
                       Registro 1 (lit "b.txt") (lit "dos")]))
    by reflexivity.
  split; [exact H|].
  destruct (build_indice_bien_formado _ _ _ _ _ _ _ H) as (_ & H1 & H2).
  exact (conj H1 H2).
Defined.

Lemma build_alineado_sin_fallos_witness :
  ∃ index metadatos,
    build Dobles.float32 Dobles2.servicio_fiel () [lit "uno"; lit "dos"]
      [lit "a.txt"; lit "b.txt"] = Some (index, metadatos)
    ∧ ntotal index = len metadatos.
Proof.
  eexists _, _.
  assert (H : build Dobles.float32 Dobles2.servicio_fiel ()
                [lit "uno"; lit "dos"] [lit "a.txt"; lit "b.txt"]
              = Some ({| d := 2; xb := [[3; 3]; [3; 3]] |},
                      [Registro 0 (lit "a.txt") (lit "uno");
                       Registro 1 (lit "b.txt") (lit "dos")]))
    by reflexivity.
  split; [exact H|].
  refine (proj1 (build_alineado_sin_fallos Dobles.float32
                   Dobles2.servicio_fiel () _ _ _ _ _ H)).
  intros c model input. eexists. split; [reflexivity|].
  by rewrite length_fmap.
Defined.

(** Thirty-three one-letter documents, a service that raises at its second
    call and whose vectors start with 16777217: 32 rows, 33 records, and the
    rows are those of the first 32 chunks, with 16777216 where the service
    said 16777217. *)
Lemma build_fallo_parcial_prefijo_witness :
  ∃ index metadatos todos,
    build Dobles.float32 (Dobles2.servicio_grande 1) 0%nat
      (replicate 33 (lit "a")) (replicate 33 (lit "a.txt"))
    = Some (index, metadatos)
    ∧ xb index = replicate 32 [16777216; 1]
    ∧ chunks_y_metadatos (replicate 33 (lit "a"))
        (replicate 33 (lit "a.txt")) = Some (todos, metadatos)
    ∧ xb index
      = (λ t, Dobles.float32 <$> [16777217; len t])
          <$> take (length (xb index)) todos
    ∧ ntotal index ≤ len metadatos.
Proof.
  assert (H : build Dobles.float32 (Dobles2.servicio_grande 1) 0%nat
                (replicate 33 (lit "a")) (replicate 33 (lit "a.txt"))
              = Some ({| d := 2; xb := replicate 32 [16777216; 1] |},
                      (λ i : nat, Registro (Z.of_nat i) (lit "a.txt")
                                    (lit "a")) <$> seq 0 33))
    by (vm_compute; reflexivity).
  assert (Hs : ∀ c model input,
            (Dobles2.servicio_grande 1 c model input).2
              = inr ((λ t, [16777217; len t]) <$> input)
            ∨ ∃ e, (Dobles2.servicio_grande 1 c model input).2 = inl e).
  { intros c model input. unfold Dobles2.servicio_grande. simpl.
    case_bool_decide; [by left|right; by eexists]. }
  destruct (build_fallo_parcial_prefijo Dobles.float32
              (Dobles2.servicio_grande 1)
              (λ t, [16777217; len t]) 0%nat _ _ _ _ Hs H)
    as (todos & H1 & H2 & H3 & _).
  eexists _, _, todos.
  exact (conj H (conj eq_refl (conj H1 (conj H2 H3)))).
Defined.

End BuildMore.

(** ** The document loader *)

Module LoaderMore.
Import Py Build Loader PyFacts Ingestion IngestionMore.

Section Carga.
Variable relpath : str → str.

Lemma cargar_txt_omap archivos textos fuentes :
  cargar_txt relpath archivos (textos, fuentes)
  = (textos ++ omap (λ a : str * (excepcion + str),
                       match a.2 with inr c => Some c | inl _ => None end)
                 archivos,
     fuentes ++ omap (λ a : str * (excepcion + str),
                        match a.2 with
                        | inr _ => Some (relpath a.1) | inl _ => None
                        end) archivos).
Proof.
  unfold cargar_txt. revert textos fuentes.
  induction archivos as [|[p [e|c]] archivos IH]; intros textos fuentes;
    simpl.
  - by rewrite !app_nil_r.
  - apply IH.
  - rewrite IH. by rewrite <- !app_assoc.
Qed.

Lemma cargar_pdf_omap archivos textos fuentes :
  cargar_pdf relpath true archivos (textos, fuentes)
  = (textos ++ omap (λ a : str * (excepcion + list (excepcion + str)),
                       match a.2 with
                       | inr pages =>
                         match texto_pdf pages [] with
                         | inr t => Some t | inl _ => None
                         end
                       | inl _ => None
                       end) archivos,
     fuentes ++ omap (λ a : str * (excepcion + list (excepcion + str)),
                        match a.2 with
                        | inr pages =>
                          match texto_pdf pages [] with
                          | inr _ => Some (relpath a.1) | inl _ => None
                          end
                        | inl _ => None
                        end) archivos).
Proof.
  unfold cargar_pdf. revert textos fuentes.
  induction archivos as [|[p [e|pages]] archivos IH]; intros textos fuentes;
    simpl.
  - by rewrite !app_nil_r.
  - apply IH.
  - destruct (texto_pdf pages []) as [e|t]; simpl; [apply IH|].
    rewrite IH. by rewrite <- !app_assoc.
Qed.

Lemma texto_pdf_paginas (ps : list str) (acc : str) :
  texto_pdf (inr <$> ps) acc = inr (acc ++ concat ((λ p, p ++ nl) <$> ps)).
Proof.
  revert acc. induction ps as [|p ps IH]; intros acc; simpl.
  - by rewrite app_nil_r.
  - rewrite IH. by rewrite <- !app_assoc.
Qed.

Lemma texto_pdf_falla (pages : list (excepcion + str)) (acc : str) e :
  inl e ∈ pages → ∃ e', texto_pdf pages acc = inl e'.
Proof.
  revert acc. induction pages as [|[e0|p] pages IH]; intros acc Hin.
  - by apply elem_of_nil in Hin.
  - by exists e0.
  - apply elem_of_cons in Hin as [?|Hin]; [done|]. simpl. by apply IH.
Qed.

(** The two lists after loading, position by position. *)
Lemma cargar_zip (txts : list (str * (excepcion + str)))
    (pypdf2 : bool)
    (pdfs : list (str * (excepcion + list (excepcion + str)))) :
  let leido_txt := λ a : str * (excepcion + str),
    match a.2 with inr c => Some (c, relpath a.1) | inl _ => None end in
  let leido_pdf := λ a : str * (excepcion + list (excepcion + str)),
    match a.2 with
    | inr pages =>
      match texto_pdf pages [] with
      | inr t => Some (t, relpath a.1) | inl _ => None
      end
    | inl _ => None
    end in
  let '(textos, fuentes) := cargar relpath txts pypdf2 pdfs in
  length textos = length fuentes
  ∧ zip textos fuentes
    = omap leido_txt txts ++ (if pypdf2 then omap leido_pdf pdfs else []).
Proof.
  intros leido_txt leido_pdf. unfold cargar.
  rewrite cargar_txt_omap. simpl.
  assert (Htxt : ∀ l : list (str * (excepcion + str)),
            length (omap (λ a, match a.2 with
                               | inr c => Some c | inl _ => None end) l)
            = length (omap (λ a, match a.2 with
                                 | inr _ => Some (relpath a.1)
                                 | inl _ => None end) l)
            ∧ zip (omap (λ a, match a.2 with
                              | inr c => Some c | inl _ => None end) l)
                  (omap (λ a, match a.2 with
                              | inr _ => Some (relpath a.1)
                              | inl _ => None end) l)
              = omap leido_txt l).
  { induction l as [|[p [e|c]] l [IH1 IH2]]; simpl; [done|done|].
    unfold leido_txt at 1. simpl. split; by f_equal. }
  destruct (Htxt txts) as [Hl Hz].
  destruct pypdf2.
  - rewrite cargar_pdf_omap.
    assert (Hpdf : ∀ l : list (str * (excepcion + list (excepcion + str))),
              length (omap (λ a, match a.2 with
                                 | inr pages =>
                                   match texto_pdf pages [] with
                                   | inr t => Some t | inl _ => None end
                                 | inl _ => None end) l)
              = length (omap (λ a, match a.2 with
                                   | inr pages =>
                                     match texto_pdf pages [] with
                                     | inr _ => Some (relpath a.1)
                                     | inl _ => None end
                                   | inl _ => None end) l)
              ∧ zip (omap (λ a, match a.2 with
                                | inr pages =>
                                  match texto_pdf pages [] with
                                  | inr t => Some t | inl _ => None end
                                | inl _ => None end) l)
                    (omap (λ a, match a.2 with
                                | inr pages =>
                                  match texto_pdf pages [] with
                                  | inr _ => Some (relpath a.1)
                                  | inl _ => None end
                                | inl _ => None end) l)
                = omap leido_pdf l).
    { induction l as [|[p [e|pages]] l [IH1 IH2]]; simpl; [done|done|].
      unfold leido_pdf at 1. simpl.
      destruct (texto_pdf pages []); simpl; [done|]. split; by f_equal. }
    destruct (Hpdf pdfs) as [Hl' Hz'].
    split; [rewrite !length_app; lia|].
    rewrite zip_with_app by done. by rewrite Hz, Hz'.
  - unfold cargar_pdf. by rewrite app_nil_r.
Qed.

(** X14. What the loader leaves in [textos] and [fuentes]: the texts of the
    text files that could be read, in the order of the paths, then, when
    PyPDF2 is there, the texts of the PDF files whose pages could all be
    extracted; and at the same positions of [fuentes] the relative paths of
    those files. A file that cannot be read adds nothing to either list, and
    without PyPDF2 no PDF file adds anything. *)
Theorem cargar_contenido (txts : list (str * (excepcion + str)))
    (pypdf2 : bool)
    (pdfs : list (str * (excepcion + list (excepcion + str)))) :
  let leido_txt := λ a : str * (excepcion + str),
    match a.2 with inr c => Some (c, relpath a.1) | inl _ => None end in
  let leido_pdf := λ a : str * (excepcion + list (excepcion + str)),
    match a.2 with
    | inr pages =>
      match texto_pdf pages [] with
      | inr t => Some (t, relpath a.1) | inl _ => None
      end
    | inl _ => None
    end in
  let '(textos, fuentes) := cargar relpath txts pypdf2 pdfs in
  length textos = length fuentes
  ∧ zip textos fuentes
    = omap leido_txt txts ++ (if pypdf2 then omap leido_pdf pdfs else []).
Proof. apply cargar_zip. Qed.

(** X15. The lists the loader leaves never make the loop over the documents
    raise: whatever the files are, [fuentes] has an entry for every text, so
    the loop returns its chunks and records. *)
Theorem cargar_y_dividir (txts : list (str * (excepcion + str)))
    (pypdf2 : bool)
    (pdfs : list (str * (excepcion + list (excepcion + str)))) :
  is_Some (chunks_y_metadatos (cargar relpath txts pypdf2 pdfs).1
             (cargar relpath txts pypdf2 pdfs).2).
Proof.
  pose proof (cargar_zip txts pypdf2 pdfs) as H. simpl in H.
  destruct (cargar relpath txts pypdf2 pdfs) as [textos fuentes].
  destruct H as [Hlen _]. simpl.
  destruct (chunks_y_metadatos_Some textos fuentes) as (? & ? & -> & _);
    [lia|done].
Qed.

(** X16. The text of a PDF file is its pages, each followed by a newline.
    If the extraction of one page raises, the file is left out. If no page
    has any text other than whitespace, the document is blank and the loop
    over the documents cuts no chunk from it. *)
Theorem pdf_paginas (ps : list str) :
  texto_pdf (inr <$> ps) [] = inr (concat ((λ p, p ++ nl) <$> ps))
  ∧ (∀ pages e archivo st,
       inl e ∈ pages → cargar_pdf_archivo relpath st (archivo, inr pages) = st)
  ∧ (Forall (λ p, Forall (λ c, isspace c = true) p) ps →
     ∀ fuentes st i,
       procesar_documento fuentes st
         (i, concat ((λ p, p ++ nl) <$> ps)) = Some st).
Proof.
  split_and!.
  - by rewrite texto_pdf_paginas.
  - intros pages e archivo [textos fuentes] Hin.
    unfold cargar_pdf_archivo. simpl.
    by destruct (texto_pdf_falla pages [] e Hin) as [e' ->].
  - intros Hblank fuentes st i. unfold procesar_documento.
    rewrite strip_blank, bool_decide_eq_true_2; [done..|].
    apply Forall_concat, Forall_fmap. eapply Forall_impl; [exact Hblank|].
    intros p Hp. simpl. apply Forall_app. split; [done|].
    by repeat constructor.
Qed.

End Carga.

End LoaderMore.

(** ** More on the retriever: the sources reported, and empty results *)

Module QueryMore.
Import Py Chat PyFacts Query.

(** The loop over the labels, with the set of sources it builds. *)
Lemma recuperar_bucle_fuentes (metadatos : list registro) (I0 : list Z)
    (ctxs : list str) (fs : gset str) :
  ∃ chunks,
    Forall2 (λ idx chunk, metadatos !! Z.to_nat idx = Some chunk)
      (filter (λ idx, 0 ≤ idx < len metadatos) I0) chunks
    ∧ for_ (recuperar metadatos) I0 (ctxs, fs)
      = Some (ctxs ++ (bloque <$> chunks),
              fs ∪ list_to_set (fuente <$> chunks)).
Proof.
  revert ctxs fs. induction I0 as [|idx I0 IH]; intros ctxs fs.
  - exists []. simpl. rewrite app_nil_r, union_empty_r_L. by split.
  - rewrite filter_cons. cbn [for_ recuperar].
    destruct (Z.geb_spec idx 0) as [Hge|Hlt];
      [destruct (Z.ltb_spec idx (len metadatos)) as [Hin|Hout]|]; simpl.
    + unfold getitem. destruct (Z.ltb_spec idx 0); [lia|].
      destruct (lookup_lt_is_Some_2 metadatos (Z.to_nat idx)) as [chunk Hc];
        [unfold len in *; lia|].
      rewrite Hc. simpl.
      destruct (IH (ctxs ++ [bloque chunk]) (fs ∪ {[fuente chunk]}))
        as (chunks & HF & ->).
      exists (chunk :: chunks). rewrite decide_True by lia.
      split; [by constructor|]. simpl.
      by rewrite <- app_assoc, <- union_assoc_L.
    + rewrite decide_False by lia. apply IH.
    + rewrite decide_False by lia. apply IH.
Qed.

Section Retriever.
Context {vector Index : Type}.
Variable search : Index → vector → Z → list Z.

(** X17. The set of sources the retriever reports is exactly the set of the
    sources of the records it made a block of: a source is in it when, and
    only when, some label of the search is a position of [metadatos] whose
    record has that source. So it holds at most as many sources as there are
    blocks. *)
Theorem fuentes_usadas_exactas (vector_pregunta : vector) (index : Index)
    (metadatos : list registro) (k : Z)
    (contextos : list str) (fuentes_usadas : gset str) :
  contextos_recuperados search vector_pregunta index metadatos k
    = Some (contextos, fuentes_usadas) →
  (∀ f, f ∈ fuentes_usadas ↔
     ∃ idx chunk, idx ∈ search index vector_pregunta k
                  ∧ 0 ≤ idx < len metadatos
                  ∧ metadatos !! Z.to_nat idx = Some chunk
                  ∧ fuente chunk = f)
  ∧ (size fuentes_usadas ≤ length contextos)%nat.
Proof.
  unfold contextos_recuperados.
  destruct (recuperar_bucle_fuentes metadatos
              (search index vector_pregunta k) [] ∅) as (chunks & HF & ->).
  intros [= <- <-].
  rewrite (left_id_L (∅ : gset (list N)) (∪)).
  split.
  - intros f. rewrite elem_of_list_to_set, list_elem_of_fmap. split.
    + intros (chunk & -> & Hin).
      apply list_elem_of_lookup in Hin as [j Hj].
      destruct (Forall2_lookup_r _ _ _ _ _ HF Hj) as (idx & Hidx & Hm).
      apply list_elem_of_lookup_2, list_elem_of_filter in Hidx as [? ?].
      by exists idx, chunk.
    + intros (idx & chunk & Hin & Hr & Hm & <-).
      exists chunk. split; [done|].
      assert (Hf : idx ∈ filter (λ idx, 0 ≤ idx < len metadatos)
                         (search index vector_pregunta k))
        by (by apply list_elem_of_filter).
      apply list_elem_of_lookup in Hf as [j Hj].
      destruct (Forall2_lookup_l _ _ _ _ _ HF Hj) as (chunk' & Hc' & Hm').
      rewrite Hm in Hm'. injection Hm' as <-.
      by eapply list_elem_of_lookup_2.
  - simpl. rewrite length_fmap, <- (length_fmap fuente chunks).
    generalize (fuente <$> chunks). intros l.
    induction l as [|x l IH].
    + change (size (∅ : gset (list N)) ≤ 0)%nat. by rewrite size_empty.
    + change (size ({[x]} ∪ list_to_set l : gset (list N))
              ≤ S (length l))%nat.
      rewrite size_union_alt, size_singleton.
      pose proof (subseteq_size (list_to_set l ∖ {[x]} : gset (list N))
                    (list_to_set l) (subseteq_difference_l _ _ _ (reflexivity _)))
        as Hs.
      lia.
Qed.

(** X18. When no label of the search is a position of [metadatos] (only
    [-1], or an empty [metadatos]), the retriever raises nothing and returns
    the empty context and no source. *)
Theorem buscar_contexto_vacio (vector_pregunta : vector) (index : Index)
    (metadatos : list registro) (k : Z) :
  (∀ idx, idx ∈ search index vector_pregunta k →
          idx < 0 ∨ len metadatos ≤ idx) →
  contextos_recuperados search vector_pregunta index metadatos k
    = Some ([], ∅)
  ∧ buscar_contexto search vector_pregunta index metadatos k = Some [].
Proof.
  intros Hout.
  assert (H : contextos_recuperados search vector_pregunta index metadatos k
              = Some ([], ∅)).
  { unfold contextos_recuperados.
    destruct (recuperar_bucle_fuentes metadatos
                (search index vector_pregunta k) [] ∅) as (chunks & HF & ->).
    assert (Hnil : filter (λ idx, 0 ≤ idx < len metadatos)
                     (search index vector_pregunta k) = []).
    { apply elem_of_nil_inv. intros idx [Hr Hin]%list_elem_of_filter.
      destruct (Hout idx Hin); lia. }
    rewrite Hnil in HF. apply Forall2_nil_inv_l in HF as ->.
    simpl. by rewrite union_empty_l_L. }
  split; [done|]. unfold buscar_contexto. by rewrite H.
Qed.

End Retriever.

Lemma fuentes_usadas_exactas_witness :
  ∃ contextos fuentes_usadas,
    contextos_recuperados Dobles.search [1; 1]
      {| Build.d := 2; Build.xb := [[0; 0]; [5; 5]; [1; 1]] |}
      [Registro 0 (lit "a.txt") (lit "uno");
       Registro 1 (lit "a.txt") (lit "dos");
       Registro 2 (lit "b.txt") (lit "tres")] 4
    = Some (contextos, fuentes_usadas)
    ∧ (size fuentes_usadas ≤ length contextos)%nat.
Proof.
  destruct (contextos_recuperados Dobles.search [1; 1]
              {| Build.d := 2; Build.xb := [[0; 0]; [5; 5]; [1; 1]] |}
              [Registro 0 (lit "a.txt") (lit "uno");
               Registro 1 (lit "a.txt") (lit "dos");
               Registro 2 (lit "b.txt") (lit "tres")] 4)
    as [[contextos fuentes_usadas]|] eqn:H.
  - exists contextos, fuentes_usadas. split; [done|].
    exact (proj2 (fuentes_usadas_exactas Dobles.search _ _ _ _ _ _ H)).
  - exfalso. revert H.
    destruct (Query.recuperar_bucle
                [Registro 0 (lit "a.txt") (lit "uno");
                 Registro 1 (lit "a.txt") (lit "dos");
                 Registro 2 (lit "b.txt") (lit "tres")]
                (Dobles.search
                   {| Build.d := 2; Build.xb := [[0; 0]; [5; 5]; [1; 1]] |}
                   [1; 1] 4) [] ∅) as (chunks & fs & _ & Hs).
    unfold contextos_recuperados. rewrite Hs. discriminate.
Defined.

Lemma buscar_contexto_vacio_witness :
  buscar_contexto Dobles.search [1; 1]
    {| Build.d := 2; Build.xb := [] |}
    [Registro 0 (lit "a.txt") (lit "uno")] 4 = Some [].
Proof.
  refine (proj2 (buscar_contexto_vacio Dobles.search [1; 1]
                   {| Build.d := 2; Build.xb := [] |}
                   [Registro 0 (lit "a.txt") (lit "uno")] 4 _)).
  intros idx Hin. left.
  assert (H : Forall (λ i, i < 0)
                (Dobles.search {| Build.d := 2; Build.xb := [] |} [1; 1] 4))
    by (apply (bool_decide_unpack _); vm_compute; exact I).
  by eapply (proj1 (Forall_forall _ _)) in H.
Defined.

End QueryMore.

(** ** The main loop of chat.py *)

Module SesionMore.
Import Py Chat Sesion PyFacts Query.

Section Bucle.
Context {coord coord32 Index mundo : Type}.
Variable lower : str → str.
Variable float32 : coord → coord32.
Variable embeddings_create :
  mundo → str → list str → mundo * (excepcion + list (list coord)).
Variable chat_completions_create :
  mundo → peticion → mundo * (excepcion + list str).
Variable search : Index → list coord32 → Z → excepcion + list Z.
Variable index : Index.
Variable metadatos : list registro.

(** The retriever raises exactly when its search does: once the search has
    given its row of labels, the context is assembled. *)
Lemma buscar_contexto_exc_casos (v : list coord32) :
  (∃ e, search index v 4 = inl e
        ∧ buscar_contexto_exc search v index metadatos 4 = inl e)
  ∨ (∃ fila contexto,
       search index v 4 = inr fila
       ∧ buscar_contexto_exc search v index metadatos 4 = inr contexto).
Proof.
  unfold buscar_contexto_exc.
  destruct (search index v 4) as [e|fila]; [left; by exists e|right].
  destruct (buscar_contexto_filtra_aux (λ _ _ _, fila) v index metadatos 4)
    as (chunks & _ & ->). by eexists _, _.
Qed.


(** X20. A line that is empty or whitespace only is passed over: with it
    or without it the loop prints the same answers and ends the same way, and
    no service is called for it. (The lowered empty string is not the word
    [salir].) *)
Theorem bucle_linea_en_blanco (antes : list str) (linea : str)
    (despues : list str) (w : mundo) (respuestas : list str) :
  strip linea = [] → lower [] ≠ lit "salir" →
  bucle_preguntas lower float32 embeddings_create chat_completions_create
    search index metadatos (antes ++ linea :: despues) w respuestas
  = bucle_preguntas lower float32 embeddings_create chat_completions_create
      search index metadatos (antes ++ despues) w respuestas.
Proof.
  intros Hb Hl. revert w respuestas.
  induction antes as [|l antes IH]; intros w respuestas.
  - simpl. rewrite Hb.
    by rewrite bool_decide_eq_false_2, bool_decide_eq_true_2 by done.
  - rewrite <- !app_comm_cons. cbn [bucle_preguntas].
    case_bool_decide; [done|]. case_bool_decide; [apply IH|].
    destruct (vectorizar_pregunta _ _ _) as [v|]; [|apply IH].
    destruct (buscar_contexto_exc _ _ _ _ _) as [e|contexto]; [done|].
    apply IH.
Qed.


(** X22. The loop only adds answers after those already printed, at most
    one per line read; and each answer it adds either begins with the error
    marker of the generator or is the content of the first choice of a
    response the completion service gave. *)
Theorem bucle_respuestas (entradas : list str) (w : mundo)
    (respuestas : list str) :
  ∃ nuevas,
    (bucle_preguntas lower float32 embeddings_create chat_completions_create
       search index metadatos entradas w respuestas).1 = respuestas ++ nuevas
    ∧ (length nuevas ≤ length entradas)%nat
    ∧ Forall (λ a, MARCA_ERROR `prefix_of` a
                   ∨ ∃ w' p rest,
                       (chat_completions_create w' p).2 = inr (a :: rest))
        nuevas.
Proof.
  revert w respuestas.
  induction entradas as [|l entradas IH]; intros w respuestas.
  - exists []. simpl. by rewrite app_nil_r.
  - assert (Hrest : ∀ w', ∃ nuevas,
              (bucle_preguntas lower float32 embeddings_create
                 chat_completions_create search index metadatos entradas w'
                 respuestas).1 = respuestas ++ nuevas
              ∧ (length nuevas ≤ length (l :: entradas))%nat
              ∧ Forall (λ a, MARCA_ERROR `prefix_of` a
                             ∨ ∃ w' p rest,
                                 (chat_completions_create w' p).2
                                 = inr (a :: rest)) nuevas).
    { intros w'. destruct (IH w' respuestas) as (nuevas & H1 & H2 & H3).
      exists nuevas. split_and!; [done|simpl; lia|done]. }
    assert (Hnada : ∃ nuevas,
              respuestas = respuestas ++ nuevas
              ∧ (length nuevas ≤ length (l :: entradas))%nat
              ∧ Forall (λ a, MARCA_ERROR `prefix_of` a
                             ∨ ∃ w' p rest,
                                 (chat_completions_create w' p).2
                                 = inr (a :: rest)) nuevas).
    { exists []. rewrite app_nil_r. split_and!; [done|simpl; lia|done]. }
    cbn [bucle_preguntas]. case_bool_decide; [exact Hnada|].
    case_bool_decide; [apply Hrest|].
    destruct (vectorizar_pregunta _ _ _) as [v|]; [|apply Hrest].
    destruct (buscar_contexto_exc _ _ _ _ _) as [e|contexto]; [exact Hnada|].
    match goal with
    | |- context [bucle_preguntas _ _ _ _ _ _ _ entradas ?w2
                    (respuestas ++ [?a])] =>
        destruct (IH w2 (respuestas ++ [a])) as (nuevas & H1 & H2 & H3);
        exists (a :: nuevas)
    end.
    rewrite H1, <- app_assoc. split_and!; [done|simpl; lia|].
    constructor; [|done].
    unfold generar_respuesta, intento.
    destruct (chat_completions_create _ (peticion_chat (strip l) contexto))
      as [w2 [e|[|c rest]]] eqn:Hc; simpl.
    + left. by eexists.
    + left. by eexists.
    + right. eexists _, _, rest. by rewrite Hc.
Qed.

(** X23. While the embedding service raises at every call, no question is
    answered: the loop prints nothing more than what was printed before,
    whatever the completion service would do. *)
Theorem bucle_sin_embeddings (entradas : list str) (w : mundo)
    (respuestas : list str) :
  (∀ w' model pregunta, ∃ e,
     (embeddings_create w' model [pregunta]).2 = inl e) →
  (bucle_preguntas lower float32 embeddings_create chat_completions_create
     search index metadatos entradas w respuestas).1 = respuestas.
Proof.
  intros Hdown. revert w.
  induction entradas as [|l entradas IH]; intros w; [done|].
  cbn [bucle_preguntas]. case_bool_decide; [done|].
  case_bool_decide; [apply IH|].
  unfold vectorizar_pregunta.
  destruct (Hdown w NOMBRE_EMBEDDING_MODELO (strip l)) as [e ->]. apply IH.
Qed.

(** X24. When the embedding service gives for every question a vector on
    which the search of the index returns (so one of the dimension of the
    index), and no line reads [salir], every line that is not blank gets
    exactly one answer, whether the completion service answers or raises. *)
Theorem bucle_una_respuesta_por_pregunta (entradas : list str) (w : mundo)
    (respuestas : list str) :
  (∀ w' model pregunta, ∃ v vs fila,
     (embeddings_create w' model [pregunta]).2 = inr (v :: vs)
     ∧ search index (float32 <$> v) 4 = inr fila) →
  Forall (λ l, lower (strip l) ≠ lit "salir") entradas →
  length (bucle_preguntas lower float32 embeddings_create
            chat_completions_create search index metadatos entradas w
            respuestas).1
  = (length respuestas + length (filter (λ l, strip l ≠ []) entradas))%nat.
Proof.
  intros Hup Hns. revert w respuestas.
  induction Hns as [|l entradas Hl Hns IH]; intros w respuestas.
  - simpl. lia.
  - cbn [bucle_preguntas]. rewrite filter_cons.
    rewrite bool_decide_eq_false_2 by done. case_bool_decide as Hb.
    + rewrite decide_False by (by intros ?). apply IH.
    + rewrite decide_True by done. unfold vectorizar_pregunta.
      destruct (Hup w NOMBRE_EMBEDDING_MODELO (strip l))
        as (v & vs & fila & -> & Hfila).
      destruct (buscar_contexto_exc_casos (float32 <$> v))
        as [(e & He & _)|(fila' & contexto & _ & ->)]; [congruence|].
      rewrite IH, length_app. simpl. lia.
Qed.

End Bucle.


Lemma bucle_linea_en_blanco_witness :
  strip (lit "   ") = [] ∧ Dobles2.lower_ascii [] ≠ lit "salir"
  ∧ bucle_preguntas Dobles2.lower_ascii Dobles.float32
      (Dobles2.embeddings 20) Dobles2.completions Dobles2.search
      {| Build.d := 2; Build.xb := [[4; 0]] |}
      [Registro 0 (lit "a.txt") (lit "uno")]
      ([lit "hola"] ++ lit "   " :: [lit "salir"]) (0%nat, 0%nat) []
    = bucle_preguntas Dobles2.lower_ascii Dobles.float32
        (Dobles2.embeddings 20) Dobles2.completions Dobles2.search
        {| Build.d := 2; Build.xb := [[4; 0]] |}
        [Registro 0 (lit "a.txt") (lit "uno")]
        ([lit "hola"] ++ [lit "salir"]) (0%nat, 0%nat) [].
Proof.
  assert (H1 : strip (lit "   ") = []) by reflexivity.
  assert (H2 : Dobles2.lower_ascii [] ≠ lit "salir")
    by (intros H; discriminate H).
  split; [exact H1|]. split; [exact H2|].
  exact (bucle_linea_en_blanco Dobles2.lower_ascii Dobles.float32
           (Dobles2.embeddings 20) Dobles2.completions Dobles2.search _ _
           [lit "hola"] (lit "   ") [lit "salir"] (0%nat, 0%nat) [] H1 H2).
Defined.


Lemma bucle_sin_embeddings_witness :
  (bucle_preguntas Dobles2.lower_ascii Dobles.float32
     (λ (w : nat * nat) (model : str) (input : list str),
        (w, inl (Excepcion (lit "Connection error."))
            : excepcion + list (list Z)))
     Dobles2.completions Dobles2.search
     {| Build.d := 2; Build.xb := [[4; 0]] |}
     [Registro 0 (lit "a.txt") (lit "uno")]
     [lit "hola"; lit "otra"] (0%nat, 0%nat) []).1 = [].
Proof.
  apply bucle_sin_embeddings. intros w' model pregunta. by eexists.
Defined.

Lemma bucle_una_respuesta_por_pregunta_witness :
  length
    (bucle_preguntas Dobles2.lower_ascii Dobles.float32
       (λ (w : nat * nat) (model : str) (input : list str),
          (w, inr ((λ t, [len t; 0]) <$> input)
              : excepcion + list (list Z)))
       Dobles2.completions Dobles2.search
       {| Build.d := 2; Build.xb := [[4; 0]] |}
       [Registro 0 (lit "a.txt") (lit "uno")]
       [lit "hola"; lit "  "; lit "otra"] (0%nat, 0%nat) []).1
  = (length (@nil str)
     + length (filter (λ l, strip l ≠ [])
                 [lit "hola"; lit "  "; lit "otra"]))%nat.
Proof.
  apply bucle_una_respuesta_por_pregunta.
  - intros w' model pregunta. eexists _, _, _. split; reflexivity.
  - repeat constructor; intros H; discriminate H.
Defined.

End SesionMore.

(** ** Rebuilding a text from its chunks *)

Module ChunkerRoundTrip.
Import Py Build PyFacts Chunker.

(** From the second chunk on, what a chunk adds is the part after its first
    [overlap] characters; these parts, from a cut on, are the rest of the
    text. *)
Lemma cortes_bucle_resto (texto : str) fuel tamano overlap inicio :
  0 ≤ overlap → overlap < tamano → 0 ≤ inicio →
  (Z.to_nat (len texto - inicio) < fuel)%nat →
  concat ((λ ab, slice texto (ab.1 + overlap) ab.2)
            <$> cortes_bucle fuel (len texto) tamano overlap inicio)
  = drop (Z.to_nat (inicio + overlap)) texto.
Proof.
  intros HO HL. revert inicio.
  induction fuel as [|fuel IH]; intros inicio Hi Hf; [lia|]. simpl.
  destruct (Z.ltb_spec inicio (len texto)) as [Hlt|Hge].
  - destruct (Z.geb_spec (inicio + tamano) (len texto)) as [Hfin|Hfin];
      simpl.
    + rewrite app_nil_r, slice_nonneg by lia.
      apply take_ge. rewrite length_drop. unfold len in *. lia.
    + rewrite IH by lia. rewrite slice_nonneg by lia.
      replace (Z.max (inicio + tamano - overlap) (inicio + 1) + overlap)
        with (inicio + tamano) by lia.
      replace (Z.to_nat (inicio + tamano))
        with (Z.to_nat (inicio + overlap)
              + Z.to_nat (inicio + tamano - (inicio + overlap)))%nat by lia.
      rewrite <- drop_drop. apply take_drop.
  - simpl. symmetry. apply drop_ge. unfold len in *. lia.
Qed.

(** X25. For [0 <= overlap < tamano] a text can be rebuilt from its chunks:
    it is the first chunk followed by every later chunk without its first
    [overlap] characters. The empty text, and only it, has no chunk. *)
Theorem dividir_texto_reconstruye (texto : str) (tamano overlap : Z) :
  0 ≤ overlap → overlap < tamano →
  match dividir_texto texto tamano overlap with
  | [] => texto = []
  | c :: cs => texto = c ++ concat (drop (Z.to_nat overlap) <$> cs)
  end.
Proof.
  intros HO HL. rewrite dividir_texto_cortes. unfold cortes. simpl.
  destruct (Z.ltb_spec 0 (len texto)) as [Hlt|Hge].
  - simpl. rewrite slice_nonneg by lia. rewrite drop_0.
    destruct (Z.geb_spec (0 + tamano) (len texto)) as [Hfin|Hfin]; simpl.
    + rewrite app_nil_r, take_ge; [done|]. unfold len in *. lia.
    + rewrite <- list_fmap_compose.
      assert (Hfuel : (Z.to_nat (len texto
                         - Z.max (0 + tamano - overlap) (0 + 1))
                       < length texto)%nat) by (unfold len in *; lia).
      pose proof (cortes_bucle_resto texto (length texto) tamano overlap
                    (Z.max (0 + tamano - overlap) (0 + 1))
                    HO HL ltac:(lia) Hfuel) as Hr.
      replace (Z.max (0 + tamano - overlap) (0 + 1) + overlap)
        with tamano in Hr by lia.
      rewrite <- (take_drop (Z.to_nat tamano) texto) at 1.
      f_equal; [f_equal; lia|].
      rewrite <- Hr. f_equal. apply list_fmap_ext.
      intros k [a b] Hk. simpl.
      destruct (cortes_bucle_lookup _ _ _ _ _ _ _ _ Hk) as (? & ? & -> & _).
      rewrite !slice_nonneg by lia. apply list_eq. intros j.
      rewrite lookup_drop, !lookup_take, !lookup_drop.
      repeat case_decide; try done; try lia. f_equal. lia.
  - destruct texto; [done|]. unfold len in Hge. simpl in Hge. lia.
Qed.

Lemma dividir_texto_reconstruye_witness :
  0 ≤ 1 ∧ 1 < 4
  ∧ lit "abcdefghij"
    = lit "abcd" ++ concat (drop (Z.to_nat 1) <$> [lit "defg"; lit "ghij"]).
Proof.
  split; [lia|]. split; [lia|].
  exact (dividir_texto_reconstruye (lit "abcdefghij") 4 1
           ltac:(lia) ltac:(lia)).
Defined.

End ChunkerRoundTrip.
